(** * The real-time update feed of the disaster-response dashboard

    A shallow embedding of the two React components that make up the
    live feed:

    - [Dashboard] (src/components/Dashboard.tsx) opens one socket.io
      transport per [token] and mirrors its health in [isConnected];
    - [RealTimeUpdates] (the feed component) attaches listeners to the
      socket it is handed, turns every inbound message into a
      [RealTimeUpdate] and keeps the newest fifty of them.

    Component state, the socket objects and their listener tables live in
    one explicit [World]; the bodies of the effects, of the listeners and
    of the click handlers are functions on that world, and the React and
    socket.io runtimes are a step function over the events they deliver.

    What the model takes from the libraries.  socket.io: [io] returns a
    fresh socket on every call; [on] appends a listener; [off(ev)] removes
    every listener of [ev]; an event reaches the listeners registered
    under its name, in registration order; [close] on a connected socket
    fires [disconnect].  React: an effect runs after the first render and
    after every render whose dependency changed, its cleanup runs just
    before the re-run and on unmount, and a state update aimed at an
    instance that is no longer mounted is dropped.  The tab panel that
    hosts the feed is mounted only while its tab is selected.  The
    [console.log] calls of the listeners are left out.

    Around the two components: the page (src/pages/Index.tsx), which
    keeps the login state and renders the Dashboard only while logged
    in, and the helpers with which the feed dresses a card. *)

From Stdlib Require Import ZArith Ascii DecimalString DecimalPos DecimalZ.
From stdpp Require Import gmap strings list.

Open Scope string_scope.
Open Scope list_scope.
Open Scope nat_scope.

(** ** Values that travel over the transport *)

(** [data: any]: the payload of a message, as socket.io hands it to a
    listener.  Numbers are kept to the integers; the feed never looks
    inside a payload. *)
#[warnings="-register-all"]
Inductive JsValue : Type :=
  | JUndefined
  | JNull
  | JBool (b : bool)
  | JNum (n : Z)
  | JStr (s : string)
  | JArr (items : list JsValue)
  | JObj (fields : list (string * JsValue)).

(** What the runtime answers when a listener asks for the time and for a
    random number: [Date.now()], the text that [Math.random()] prints as
    inside a template literal, and [new Date().toISOString()]. *)
Record Samples : Type := MkSamples {
  date_now : Z;
  math_random : string;
  iso_string : string
}.

(** [`${n}`] for an integral number [n]. *)
Definition number_to_string (n : Z) : string :=
  NilZero.string_of_int (Z.to_int n).

(** ** Records of the feed *)

(** The four literal members of [RealTimeUpdate['type']]. *)
Inductive UpdateType : Type :=
  | disaster_update
  | resource_update
  | report_update
  | social_media_updated.

Definition type_name (t : UpdateType) : string :=
  match t with
  | disaster_update => "disaster-update"
  | resource_update => "resource-update"
  | report_update => "report-update"
  | social_media_updated => "social_media_updated"
  end.

Record RealTimeUpdate : Type := MkUpdate {
  id : string;
  type : UpdateType;
  data : JsValue;
  timestamp : string
}.

(** The object literal built at the top of [addUpdate]. *)
Definition newUpdate (t : UpdateType) (d : JsValue) (env : Samples)
  : RealTimeUpdate :=
  {| id := type_name t +:+ "-" +:+ number_to_string (date_now env)
             +:+ "-" +:+ math_random env;
     type := t;
     data := d;
     timestamp := iso_string env |}.

(** [prev.slice(0, k)] for a bound [k >= 0]. *)
Definition slice0 {A : Type} (k : nat) (prev : list A) : list A := take k prev.

(** The updater [prev => [newUpdate, ...prev.slice(0, k)]], with the bound
    of the slice left open. *)
Definition addUpdate_slice (k : nat) (t : UpdateType) (d : JsValue)
    (env : Samples) (prev : list RealTimeUpdate) : list RealTimeUpdate :=
  newUpdate t d env :: slice0 k prev.

(** [addUpdate]: the updater the component passes to [setUpdates]. *)
Definition addUpdate (t : UpdateType) (d : JsValue) (env : Samples)
    (prev : list RealTimeUpdate) : list RealTimeUpdate :=
  newUpdate t d env :: slice0 49 prev.

(** [clearUpdates]: the value the component passes to [setUpdates]. *)
Definition clearUpdates : list RealTimeUpdate := [].

(** The number of records the feed retains. *)
Definition CAPACITY : nat := 50.

(** ** Sockets and their listeners *)

(** The closures the two components hand to [socket.on].  Each captures
    the state setters of the component instance that created it, named
    here by the instance's number. *)
Inductive Listener : Type :=
  | DashboardConnect (inst : nat)       (* () => setIsConnected(true)  *)
  | DashboardDisconnect (inst : nat)    (* () => setIsConnected(false) *)
  | FeedConnect (inst : nat)            (* () => setIsConnected(true)  *)
  | FeedDisconnect (inst : nat)         (* () => setIsConnected(false) *)
  | FeedChannel (inst : nat) (t : UpdateType).
                                        (* data => addUpdate(t, data)  *)

(** A socket.io client socket: the credential it was created with, its
    [connected] flag, whether [close()] was called on it, and the emitter
    table from event names to the listeners registered under them, in
    registration order. *)
Record Socket : Type := MkSocket {
  auth_token : option string;
  connected : bool;
  closed : bool;
  callbacks : gmap string (list Listener)
}.

(** The emitter a socket inherits: [on] appends to the listeners of an
    event, [off] with no listener named drops them all, whoever
    registered them. *)
Definition table_listeners (ev : string) (m : gmap string (list Listener))
  : list Listener :=
  default [] (m !! ev).

Definition table_on (ev : string) (fn : Listener)
    (m : gmap string (list Listener)) : gmap string (list Listener) :=
  <[ev := table_listeners ev m ++ [fn]]> m.

Definition table_off (ev : string) (m : gmap string (list Listener))
  : gmap string (list Listener) :=
  delete ev m.

Definition listeners (ev : string) (s : Socket) : list Listener :=
  table_listeners ev (callbacks s).

(** [socket.on(ev, fn)] *)
Definition Socket_on (ev : string) (fn : Listener) (s : Socket) : Socket :=
  {| auth_token := auth_token s; connected := connected s; closed := closed s;
     callbacks := table_on ev fn (callbacks s) |}.

(** [socket.off(ev)] *)
Definition Socket_off (ev : string) (s : Socket) : Socket :=
  {| auth_token := auth_token s; connected := connected s; closed := closed s;
     callbacks := table_off ev (callbacks s) |}.

Definition Socket_set_connected (v : bool) (s : Socket) : Socket :=
  {| auth_token := auth_token s; connected := v; closed := closed s;
     callbacks := callbacks s |}.

Definition Socket_set_closed (s : Socket) : Socket :=
  {| auth_token := auth_token s; connected := connected s; closed := true;
     callbacks := callbacks s |}.

(** ** Component instances and the world *)

(** A mounted [Dashboard]: its two [useState] cells, the [token] its
    effect last ran with, and the [newSocket] its pending cleanup closes. *)
Record DashboardInst : Type := MkDashboard {
  dash_inst : nat;
  dash_socket : option nat;
  dash_isConnected : bool;
  dash_deps : option string;
  dash_cleanup : option nat
}.

(** A mounted [RealTimeUpdates]: its two [useState] cells and the
    [socket] prop its effect last ran with (the pending cleanup detaches
    from that same socket when it is not null). *)
Record FeedInst : Type := MkFeed {
  feed_inst : nat;
  feed_updates : list RealTimeUpdate;
  feed_isConnected : bool;
  feed_deps : option nat
}.

(** Every socket created so far, named by its position; the number of
    component instances created so far; the mounted components. *)
Record World : Type := MkWorld {
  sockets : list Socket;
  instances : nat;
  dashboard : option DashboardInst;
  feed : option FeedInst
}.

Definition World_init : World :=
  {| sockets := []; instances := 0; dashboard := None; feed := None |}.

Definition set_sockets (f : list Socket -> list Socket) (w : World) : World :=
  {| sockets := f (sockets w); instances := instances w;
     dashboard := dashboard w; feed := feed w |}.

Definition set_dashboard (d : option DashboardInst) (w : World) : World :=
  {| sockets := sockets w; instances := instances w;
     dashboard := d; feed := feed w |}.

Definition set_feed (f : option FeedInst) (w : World) : World :=
  {| sockets := sockets w; instances := instances w;
     dashboard := dashboard w; feed := f |}.

Definition new_instance (w : World) : World :=
  {| sockets := sockets w; instances := S (instances w);
     dashboard := dashboard w; feed := feed w |}.

(** Statements of an effect or a handler run one after the other. *)
Definition and_then (f g : World -> World) : World -> World := fun w => g (f w).
Notation "f >>> g" := (and_then f g) (at level 61, left associativity).
Definition skip : World -> World := fun w => w.

(** *** State setters

    A setter acts on the instance it was created by; React drops the
    update when that instance is no longer mounted. *)
Definition Dashboard_set (inst : nat) (f : DashboardInst -> DashboardInst)
  : World -> World := fun w =>
  match dashboard w with
  | Some d => if decide (dash_inst d = inst)
              then set_dashboard (Some (f d)) w else w
  | None => w
  end.

Definition Feed_set (inst : nat) (f : FeedInst -> FeedInst)
  : World -> World := fun w =>
  match feed w with
  | Some c => if decide (feed_inst c = inst)
              then set_feed (Some (f c)) w else w
  | None => w
  end.

Definition Dashboard_setSocket (inst : nat) (s : option nat) :=
  Dashboard_set inst (fun d =>
    {| dash_inst := dash_inst d; dash_socket := s;
       dash_isConnected := dash_isConnected d;
       dash_deps := dash_deps d; dash_cleanup := dash_cleanup d |}).

Definition Dashboard_setIsConnected (inst : nat) (v : bool) :=
  Dashboard_set inst (fun d =>
    {| dash_inst := dash_inst d; dash_socket := dash_socket d;
       dash_isConnected := v;
       dash_deps := dash_deps d; dash_cleanup := dash_cleanup d |}).

Definition Feed_setUpdates (inst : nat)
    (f : list RealTimeUpdate -> list RealTimeUpdate) :=
  Feed_set inst (fun c =>
    {| feed_inst := feed_inst c; feed_updates := f (feed_updates c);
       feed_isConnected := feed_isConnected c; feed_deps := feed_deps c |}).

Definition Feed_setIsConnected (inst : nat) (v : bool) :=
  Feed_set inst (fun c =>
    {| feed_inst := feed_inst c; feed_updates := feed_updates c;
       feed_isConnected := v; feed_deps := feed_deps c |}).

(** *** Socket operations, on the socket named [s] *)

Definition update_socket (s : nat) (f : Socket -> Socket) : World -> World :=
  set_sockets (alter f s).

(** [io(url, { auth: { token } })]: a fresh socket, not yet connected and
    with no listener; its name is the next free position. *)
Definition io (token : option string) : World -> World :=
  set_sockets (fun l => l ++ [ {| auth_token := token; connected := false;
                                  closed := false; callbacks := ∅ |} ]).

Definition on (s : nat) (ev : string) (fn : Listener) : World -> World :=
  update_socket s (Socket_on ev fn).

Definition off (s : nat) (ev : string) : World -> World :=
  update_socket s (Socket_off ev).

(** What each listener does when the emitter calls it with [arg]. *)
Definition call (fn : Listener) (arg : JsValue) (env : Samples)
  : World -> World :=
  match fn with
  | DashboardConnect i => Dashboard_setIsConnected i true
  | DashboardDisconnect i => Dashboard_setIsConnected i false
  | FeedConnect i => Feed_setIsConnected i true
  | FeedDisconnect i => Feed_setIsConnected i false
  | FeedChannel i t => Feed_setUpdates i (addUpdate t arg env)
  end.

(** The emitter calls the listeners registered under [ev] when the event
    fires, in registration order. *)
Definition emit (s : nat) (ev : string) (arg : JsValue) (env : Samples)
  : World -> World := fun w =>
  match sockets w !! s with
  | Some sock => foldl (fun w' fn => call fn arg env w') w (listeners ev sock)
  | None => w
  end.

(** [socket.close()]: the socket is released; when it was connected it
    also drops to disconnected and fires [disconnect]. *)
Definition close (s : nat) (env : Samples) : World -> World := fun w =>
  match sockets w !! s with
  | Some sock =>
      if connected sock
      then (update_socket s
              (fun k => Socket_set_closed (Socket_set_connected false k))
            >>> emit s "disconnect" (JStr "io client disconnect") env) w
      else update_socket s Socket_set_closed w
  | None => w
  end.

(** ** The Dashboard component (Dashboard.tsx) *)

Module Dashboard.

(** What React remembers once the effect has run: the dependency it ran
    with and the socket captured by the cleanup it returned. *)
Definition effect_ran (inst : nat) (token : option string) (newSocket : nat) :=
  Dashboard_set inst (fun d =>
    {| dash_inst := dash_inst d; dash_socket := dash_socket d;
       dash_isConnected := dash_isConnected d;
       dash_deps := token; dash_cleanup := Some newSocket |}).

(** The body of [useEffect(() => { ... }, [token])]. *)
Definition effect (inst : nat) (token : option string) : World -> World :=
  fun w =>
  let newSocket := length (sockets w) in
  (io token
   >>> on newSocket "connect" (DashboardConnect inst)
   >>> on newSocket "disconnect" (DashboardDisconnect inst)
   >>> Dashboard_setSocket inst (Some newSocket)
   >>> effect_ran inst token newSocket) w.

(** The cleanup the effect returned: [newSocket.close()]. *)
Definition cleanup (d : DashboardInst) (env : Samples) : World -> World :=
  match dash_cleanup d with
  | Some newSocket => close newSocket env
  | None => skip
  end.

(** First render: [useState(null)], [useState(false)], then the effect. *)
Definition mount (token : option string) : World -> World := fun w =>
  let inst := instances w in
  (new_instance
   >>> set_dashboard (Some {| dash_inst := inst; dash_socket := None;
                              dash_isConnected := false;
                              dash_deps := token; dash_cleanup := None |})
   >>> effect inst token) w.

End Dashboard.

(** ** The feed component (RealTimeUpdates) *)

Module RealTimeUpdates.

Definition effect_ran (inst : nat) (socket : option nat) :=
  Feed_set inst (fun c =>
    {| feed_inst := feed_inst c; feed_updates := feed_updates c;
       feed_isConnected := feed_isConnected c; feed_deps := socket |}).

(** [socket.connected], read off the socket object. *)
Definition socket_connected (s : nat) (w : World) : bool :=
  match sockets w !! s with
  | Some sock => connected sock
  | None => false
  end.

(** The body of [useEffect(() => { ... }, [socket])]. *)
Definition effect (inst : nat) (socket : option nat) : World -> World :=
  match socket with
  | None => effect_ran inst None
  | Some s =>
      (fun w => Feed_setIsConnected inst (socket_connected s w) w)
      >>> on s "connect" (FeedConnect inst)
      >>> on s "disconnect" (FeedDisconnect inst)
      >>> on s "disaster-update" (FeedChannel inst disaster_update)
      >>> on s "resource-update" (FeedChannel inst resource_update)
      >>> on s "report-update" (FeedChannel inst report_update)
      >>> on s "social_media_updated" (FeedChannel inst social_media_updated)
      >>> effect_ran inst (Some s)
  end.

(** The cleanup the effect returned; there is none when the effect left
    early on a null socket. *)
Definition cleanup (c : FeedInst) : World -> World :=
  match feed_deps c with
  | None => skip
  | Some s =>
      off s "connect"
      >>> off s "disconnect"
      >>> off s "disaster-update"
      >>> off s "resource-update"
      >>> off s "report-update"
      >>> off s "social_media_updated"
  end.

(** First render: [useState([])], [useState(false)], then the effect. *)
Definition mount (socket : option nat) : World -> World := fun w =>
  let inst := instances w in
  (new_instance
   >>> set_feed (Some {| feed_inst := inst; feed_updates := [];
                         feed_isConnected := false; feed_deps := None |})
   >>> effect inst socket) w.

(** A later render with prop [socket]: the effect re-runs, after its
    cleanup, only when the prop is a different socket. *)
Definition rerender (socket : option nat) : World -> World := fun w =>
  match feed w with
  | Some c =>
      if decide (feed_deps c = socket) then w
      else (cleanup c >>> effect (feed_inst c) socket) w
  | None => w
  end.

(** The click handler of the Clear All button. *)
Definition onClick_clear : World -> World := fun w =>
  match feed w with
  | Some c => Feed_setUpdates (feed_inst c) (fun _ => clearUpdates) w
  | None => w
  end.

End RealTimeUpdates.

(** ** The runtime: what can happen, one event at a time *)

Inductive Event : Type :=
  | Render (token : option string)  (* the page renders <Dashboard token=..> *)
  | Unmount                         (* the page stops rendering it           *)
  | ShowRealtimeTab                 (* the Real-time tab is selected         *)
  | HideRealtimeTab                 (* another tab is selected               *)
  | ClickClearAll
  | Connect (s : nat)               (* socket s: the transport opened        *)
  | Disconnect (s : nat)            (* socket s: the transport dropped       *)
  | Message (s : nat) (ev : string) (arg : JsValue).
                                    (* socket s: event ev arrived            *)

(** The socket prop the Dashboard passes down on its current render. *)
Definition socket_prop (w : World) : option nat :=
  match dashboard w with
  | Some d => dash_socket d
  | None => None
  end.

(** One event, handled to completion at an instant whose clock and
    random readings are [env]. *)
Definition step (w : World) (e : Event * Samples) : World :=
  let env := e.2 in
  match e.1 with
  | Render token =>
      match dashboard w with
      | None => Dashboard.mount token w
      | Some d =>
          if decide (dash_deps d = token) then w
          else (Dashboard.cleanup d env
                >>> Dashboard.effect (dash_inst d) token
                >>> (fun w' => RealTimeUpdates.rerender (socket_prop w') w')) w
      end
  | Unmount =>
      match dashboard w with
      | None => w
      | Some d =>
          (set_dashboard None
           >>> set_feed None
           >>> Dashboard.cleanup d env
           >>> match feed w with
               | Some c => RealTimeUpdates.cleanup c
               | None => skip
               end) w
      end
  | ShowRealtimeTab =>
      match dashboard w, feed w with
      | Some d, None => RealTimeUpdates.mount (dash_socket d) w
      | _, _ => w
      end
  | HideRealtimeTab =>
      match feed w with
      | Some c => (set_feed None >>> RealTimeUpdates.cleanup c) w
      | None => w
      end
  | ClickClearAll => RealTimeUpdates.onClick_clear w
  | Connect s =>
      (update_socket s (Socket_set_connected true)
       >>> emit s "connect" JUndefined env) w
  | Disconnect s =>
      (update_socket s (Socket_set_connected false)
       >>> emit s "disconnect" (JStr "transport close") env) w
  | Message s ev arg => emit s ev arg env w
  end.

Definition run (w : World) (trace : list (Event * Samples)) : World :=
  foldl step w trace.

(** [records()]: the feed as the component renders it. *)
Definition records (w : World) : list RealTimeUpdate :=
  match feed w with
  | Some c => feed_updates c
  | None => []
  end.

(** ** What the feed shows for a record (RealTimeUpdates, render helpers)

    A [switch] compares its argument with each case label in turn, by
    strict equality. *)

(** A JSX element as far as these helpers build one: the component or tag,
    and its [className]. *)
Record Element : Type := MkElement {
  tag : string;
  className : string
}.

Definition getUpdateIcon (type : string) : Element :=
  if decide (type = "disaster-update")
  then {| tag := "AlertTriangle"; className := "h-4 w-4 text-red-500" |}
  else if decide (type = "resource-update")
  then {| tag := "Package"; className := "h-4 w-4 text-blue-500" |}
  else if decide (type = "report-update")
  then {| tag := "FileText"; className := "h-4 w-4 text-green-500" |}
  else if decide (type = "social_media_updated")
  then {| tag := "div"; className := "h-4 w-4 bg-purple-500 rounded-full" |}
  else {| tag := "div"; className := "h-4 w-4 bg-gray-500 rounded-full" |}.

Definition getUpdateTitle (type : string) : string :=
  if decide (type = "disaster-update") then "Disaster Update"
  else if decide (type = "resource-update") then "Resource Update"
  else if decide (type = "report-update") then "Report Update"
  else if decide (type = "social_media_updated") then "Social Media Update"
  else "Unknown Update".

Definition getTypeColor (type : string) : string :=
  if decide (type = "disaster-update") then "bg-red-100 text-red-800"
  else if decide (type = "resource-update") then "bg-blue-100 text-blue-800"
  else if decide (type = "report-update") then "bg-green-100 text-green-800"
  else if decide (type = "social_media_updated")
       then "bg-purple-100 text-purple-800"
  else "bg-gray-100 text-gray-800".

(** ** The page (pages/Index.tsx)

    The page owns the login state and decides whether the Dashboard is in
    the tree.  Its handlers are closed over the browser's [localStorage]
    and over [toast]; both are kept in the state, the second as the list of
    calls made.  The state updates of one handler are applied together and
    followed by one render. *)

Module Index.

Record Toast : Type := MkToast {
  title : string;
  description : string
}.

Record App : Type := MkApp {
  localStorage : gmap string string;
  toasts : list Toast;
  isAuthenticated : bool;            (* useState(false) *)
  token : option string;             (* useState<string | null>(null) *)
  tree : World                       (* what is rendered below the page *)
}.

Definition setItem (k v : string) (a : App) : App :=
  {| localStorage := <[k := v]> (localStorage a); toasts := toasts a;
     isAuthenticated := isAuthenticated a; token := token a;
     tree := tree a |}.

Definition removeItem (k : string) (a : App) : App :=
  {| localStorage := delete k (localStorage a); toasts := toasts a;
     isAuthenticated := isAuthenticated a; token := token a;
     tree := tree a |}.

Definition setToken (t : option string) (a : App) : App :=
  {| localStorage := localStorage a; toasts := toasts a;
     isAuthenticated := isAuthenticated a; token := t; tree := tree a |}.

Definition setIsAuthenticated (b : bool) (a : App) : App :=
  {| localStorage := localStorage a; toasts := toasts a;
     isAuthenticated := b; token := token a; tree := tree a |}.

Definition toast (t : Toast) (a : App) : App :=
  {| localStorage := localStorage a; toasts := toasts a ++ [t];
     isAuthenticated := isAuthenticated a; token := token a;
     tree := tree a |}.

Definition set_tree (f : World → World) (a : App) : App :=
  {| localStorage := localStorage a; toasts := toasts a;
     isAuthenticated := isAuthenticated a; token := token a;
     tree := f (tree a) |}.

(** [if (savedToken)]: [getItem] answers [null] or a string, and of the
    strings only the empty one is falsy. *)
Definition truthy (v : option string) : bool :=
  match v with
  | Some s => if decide (s = "") then false else true
  | None => false
  end.

(** The body of [useEffect(() => { ... }, [])]. *)
Definition effect (a : App) : App :=
  let savedToken := localStorage a !! "disaster_token" in
  if truthy savedToken
  then setIsAuthenticated true (setToken savedToken a)
  else a.

Definition handleLogin (newToken : string) (a : App) : App :=
  toast {| title := "Login Successful";
           description := "Welcome to Disaster Response Platform" |}
    (setIsAuthenticated true
       (setToken (Some newToken)
          (setItem "disaster_token" newToken a))).

Definition handleLogout (a : App) : App :=
  toast {| title := "Logged Out";
           description := "You have been logged out successfully" |}
    (setIsAuthenticated false
       (setToken None
          (removeItem "disaster_token" a))).

(** The render: the login form while [!isAuthenticated], otherwise the
    Dashboard with the [token] of the state.  Rendering the login form
    takes a mounted Dashboard out of the tree. *)
Definition render (env : Samples) (a : App) : App :=
  set_tree (λ w, step w (if isAuthenticated a then Render (token a)
                         else Unmount, env)) a.

(** The page is loaded in a browser whose storage is [storage]: first
    render, the mount effect, and the render its state updates cause. *)
Definition mount (storage : gmap string string) (env : Samples) : App :=
  render env
    (effect
       (render env
          {| localStorage := storage; toasts := [];
             isAuthenticated := false; token := None;
             tree := World_init |})).

(** What can happen while the page is open. *)
Inductive Action : Type :=
  | Login (newToken : string)   (* the login form calls [onLogin(data.token)] *)
  | Logout                      (* the Logout button is clicked *)
  | Below (e : Event).          (* a click or a transport event further down *)

(** Renders and unmounts of the Dashboard come from the page alone. *)
Definition handle (a : App) (e : Action * Samples) : App :=
  match e.1 with
  | Login newToken => render e.2 (handleLogin newToken a)
  | Logout => render e.2 (handleLogout a)
  | Below (Render _) | Below Unmount => a
  | Below ev => set_tree (λ w, step w (ev, e.2)) a
  end.

Definition run_actions (a : App) (trace : list (Action * Samples)) : App :=
  foldl handle a trace.

End Index.

(** * Vocabulary of the properties *)

(** ** Listener tables of the two components *)

(** The six registrations of the feed's effect, and the six removals of
    its cleanup, as they act on one listener table. *)
Definition attach (inst : nat) (m : gmap string (list Listener)) :=
  table_on "social_media_updated" (FeedChannel inst social_media_updated)
   (table_on "report-update" (FeedChannel inst report_update)
    (table_on "resource-update" (FeedChannel inst resource_update)
     (table_on "disaster-update" (FeedChannel inst disaster_update)
      (table_on "disconnect" (FeedDisconnect inst)
       (table_on "connect" (FeedConnect inst) m))))).

Definition detach (m : gmap string (list Listener)) :=
  table_off "social_media_updated"
   (table_off "report-update"
    (table_off "resource-update"
     (table_off "disaster-update"
      (table_off "disconnect"
       (table_off "connect" m))))).

(** The table of a socket the Dashboard instance [inst] has just opened. *)
Definition opened (inst : nat) : gmap string (list Listener) :=
  table_on "disconnect" (DashboardDisconnect inst)
   (table_on "connect" (DashboardConnect inst) ∅).

(** The listeners the feed instance [inst] registers under [ev]. *)
Definition feed_listeners (inst : nat) (ev : string) : list Listener :=
  if decide (ev = "connect") then [FeedConnect inst]
  else if decide (ev = "disconnect") then [FeedDisconnect inst]
  else if decide (ev = "disaster-update") then [FeedChannel inst disaster_update]
  else if decide (ev = "resource-update") then [FeedChannel inst resource_update]
  else if decide (ev = "report-update") then [FeedChannel inst report_update]
  else if decide (ev = "social_media_updated")
       then [FeedChannel inst social_media_updated]
  else [].

Definition feed_events : list string :=
  ["connect"; "disconnect"; "disaster-update"; "resource-update";
   "report-update"; "social_media_updated"].

Ltac case_event ev :=
  destruct (decide (ev = "connect")) as [->|?];
  [|destruct (decide (ev = "disconnect")) as [->|?];
  [|destruct (decide (ev = "disaster-update")) as [->|?];
  [|destruct (decide (ev = "resource-update")) as [->|?];
  [|destruct (decide (ev = "report-update")) as [->|?];
  [|destruct (decide (ev = "social_media_updated")) as [->|?]]]]]].

(** ** Wiring and its invariant *)

(** The part of a world that decides who hears what: the listener tables,
    which socket the Dashboard holds, and which socket the feed is
    attached to.  Listeners never change it. *)
Definition tables (w : World) : list (gmap string (list Listener)) :=
  callbacks <$> sockets w.

Definition dash_wiring (w : World) : option (option nat * option nat) :=
  (λ d, (dash_socket d, dash_cleanup d)) <$> dashboard w.

Definition feed_wiring (w : World) : option (nat * option nat) :=
  (λ c, (feed_inst c, feed_deps c)) <$> feed w.

Definition dash_session (w : World) : option (nat * option string) :=
  (λ d, (dash_inst d, dash_deps d)) <$> dashboard w.

Definition wiring (w : World) :=
  (tables w, dash_wiring w, feed_wiring w, dash_session w).

(** Every listener sits under the event its closure was written for. *)
Definition sorted (ev : string) (fn : Listener) : Prop :=
  match fn with
  | DashboardConnect _ | FeedConnect _ => ev = "connect"
  | DashboardDisconnect _ | FeedDisconnect _ => ev = "disconnect"
  | FeedChannel _ t => ev = type_name t
  end.

(** The feed instance whose state a listener writes, if any. *)
Definition owner (fn : Listener) : option nat :=
  match fn with
  | FeedConnect i | FeedDisconnect i | FeedChannel i _ => Some i
  | DashboardConnect _ | DashboardDisconnect _ => None
  end.

Record InvW (R : list (gmap string (list Listener)))
    (D : option (option nat * option nat))
    (F : option (nat * option nat)) : Prop := {
  (* listeners are filed under their own event *)
  inv_sorted : ∀ s m ev fn,
    R !! s = Some m → fn ∈ table_listeners ev m → sorted ev fn;
  (* a feed listener belongs to the mounted feed and sits on its socket *)
  inv_owned : ∀ s m ev fn i,
    R !! s = Some m → fn ∈ table_listeners ev m → owner fn = Some i →
    F = Some (i, Some s);
  (* the mounted feed has exactly one listener per channel on its socket *)
  inv_attached : ∀ i s m t,
    F = Some (i, Some s) → R !! s = Some m →
    table_listeners (type_name t) m = [FeedChannel i t];
  (* the Dashboard holds the socket its cleanup will close *)
  inv_dash : ∀ x, D = Some x → ∃ s, x = (Some s, Some s) ∧ s < length R;
  (* the feed is attached to the socket the Dashboard holds *)
  inv_feed : ∀ i o, F = Some (i, o) → ∃ x, D = Some x ∧ x.1 = o
}.

Definition Inv (w : World) : Prop :=
  InvW (tables w) (dash_wiring w) (feed_wiring w).

(** A world is reachable when some run from the initial world ends in it. *)
Definition reachable (w : World) : Prop :=
  ∃ trace, run World_init trace = w.

(** No listener anywhere writes to a feed. *)
Definition quiet (w : World) : Prop :=
  ∀ s m ev fn,
    tables w !! s = Some m → fn ∈ table_listeners ev m → owner fn = None.

(** ** Messages *)

(** A received message: its channel, its payload, and what the clock and
    the random source answer while its listener runs. *)
Definition Inbound : Type := UpdateType * JsValue * Samples.

Definition arrival (s : nat) (m : Inbound) : Event * Samples :=
  (Message s (type_name m.1.1) m.1.2, m.2).

Definition record_of (m : Inbound) : RealTimeUpdate :=
  newUpdate m.1.1 m.1.2 m.2.

(** The feed after the updaters of [msgs] ran in order on [prev]. *)
Definition feed_after (k : nat) (prev : list RealTimeUpdate)
    (msgs : list Inbound) : list RealTimeUpdate :=
  foldl (λ l m, addUpdate_slice k m.1.1 m.1.2 m.2 l) prev msgs.

(** Events delivered by the transport, as opposed to renders and clicks. *)
Definition from_transport (e : Event * Samples) : Prop :=
  match e.1 with
  | Connect _ | Disconnect _ | Message _ _ _ => True
  | _ => False
  end.

(** ** Connection state *)

(** The Dashboard's [isConnected], and the feed's; a component that is not
    mounted shows nothing, which reads as disconnected. *)
Definition dash_state (w : World) : bool :=
  match dashboard w with
  | Some d => dash_isConnected d
  | None => false
  end.

Definition feed_state (w : World) : bool :=
  match feed w with
  | Some c => feed_isConnected c
  | None => false
  end.

(** The state seen after each event of a run. *)
Fixpoint observe (f : World → bool) (w : World)
    (trace : list (Event * Samples)) : list bool :=
  match trace with
  | [] => []
  | e :: trace' => f (step w e) :: observe f (step w e) trace'
  end.

(** The transitions among successive observations: the new state, each
    time it differs from the one before. *)
Fixpoint transitions (prev : bool) (obs : list bool) : list bool :=
  match obs with
  | [] => []
  | b :: obs' =>
      if Bool.eqb b prev then transitions prev obs'
      else b :: transitions b obs'
  end.

(** [next], then its opposite, then [next] again, and so on. *)
Fixpoint alternates (next : bool) (l : list bool) : Prop :=
  match l with
  | [] => True
  | b :: l' => b = next ∧ alternates (negb next) l'
  end.

(** What a listener filed under connect ([v = true]) or disconnect
    ([v = false]) may be. *)
Definition signal_listener (v : bool) (fn : Listener) : Prop :=
  match fn with
  | DashboardConnect _ | FeedConnect _ => v = true
  | DashboardDisconnect _ | FeedDisconnect _ => v = false
  | FeedChannel _ _ => False
  end.

Definition signal_name (v : bool) : string :=
  if v then "connect" else "disconnect".

(** ** Transports *)

(** Every transport created so far: the credential it was opened with and
    whether it has been released. *)
Definition transports (w : World) : list (option string * bool) :=
  (λ k, (auth_token k, closed k)) <$> sockets w.

Definition released (p : option string * bool) : option string * bool :=
  (p.1, true).

(** While the Dashboard is mounted the transport it holds is the latest
    one, it carries the token the effect last ran with and is not
    released; every other transport is released.  With no Dashboard
    mounted every transport is released. *)
Definition live (w : World) : Prop :=
  match dashboard w with
  | Some d =>
      ∃ olds, transports w = olds ++ [(dash_deps d, false)]
              ∧ Forall (λ p, p.2 = true) olds
              ∧ dash_socket d = Some (length olds)
  | None => Forall (λ p, p.2 = true) (transports w)
  end.

(** The same, read off the wiring. *)
Definition liveW (T : list (option string * bool))
    (D : option (option nat * option nat))
    (S : option (nat * option string)) : Prop :=
  match D, S with
  | Some (o, _), Some (_, deps) =>
      ∃ olds, T = olds ++ [(deps, false)]
              ∧ Forall (λ p, p.2 = true) olds
              ∧ o = Some (length olds)
  | _, _ => Forall (λ p, p.2 = true) T
  end.

(** ** Identifiers *)

(** A string without the separator ["-"]. *)
Fixpoint no_dash (s : string) : Prop :=
  match s with
  | EmptyString => True
  | String c s' => c ≠ "-"%char ∧ no_dash s'
  end.

(** ** Sample worlds *)

Definition at_epoch : Samples :=
  {| date_now := 0; math_random := "0.5";
     iso_string := "1970-01-01T00:00:00.000Z" |}.

Definition at_ms (n : nat) : Samples :=
  {| date_now := Z.of_nat n; math_random := "0.25";
     iso_string := "2025-01-01T00:00:00.000Z" |}.

(** Logged in, Real-time tab open, transport connected. *)
Definition trace_live : list (Event * Samples) :=
  [ (Render (Some "tok"), at_epoch); (ShowRealtimeTab, at_epoch);
    (Connect 0, at_epoch) ].

Definition world_live : World := run World_init trace_live.

Definition feed_live : FeedInst :=
  {| feed_inst := 1; feed_updates := []; feed_isConnected := true;
     feed_deps := Some 0 |}.

Definition burst (n : nat) : list Inbound :=
  (λ i, (report_update, JNum (Z.of_nat i), at_ms i)) <$> seq 0 n.

Definition world_one : World :=
  run World_init
    (trace_live ++ [ (Message 0 "report-update" (JStr "r"), at_ms 3) ]).

Definition feed_one : FeedInst :=
  {| feed_inst := 1;
     feed_updates := [ newUpdate report_update (JStr "r") (at_ms 3) ];
     feed_isConnected := true; feed_deps := Some 0 |}.

(** ** Listeners of one event on one socket *)

(** The listeners an event named [ev] on socket [s] reaches; none when the
    socket does not exist. *)
Definition listeners_of (w : World) (s : nat) (ev : string) : list Listener :=
  match sockets w !! s with
  | Some sock => listeners ev sock
  | None => []
  end.

(** The feed is mounted and attached to socket [s]. *)
Definition attached_to (w : World) (s : nat) : Prop :=
  ∃ c, feed w = Some c ∧ feed_deps c = Some s.

(** ** Transports opened by an event *)

(** The credentials of the transports an event opens: rendering the
    Dashboard for the first time, or with a token other than the one its
    effect last ran with, opens one; nothing else opens any. *)
Definition opened_by (w : World) (e : Event * Samples) : list (option string) :=
  match e.1 with
  | Render token =>
      match dashboard w with
      | Some d => if decide (dash_deps d = token) then [] else [token]
      | None => [token]
      end
  | _ => []
  end.

(** What tells two records of one feed apart: channel, clock reading and
    random draw. *)
Definition id_key (m : Inbound) : UpdateType * Z * string :=
  (m.1.1, date_now m.2, math_random m.2).

(** The id built from a key. *)
Definition id_of_key (k : UpdateType * Z * string) : string :=
  type_name k.1.1 +:+ "-" +:+ number_to_string k.1.2 +:+ "-" +:+ k.2.

(** ** The feed's connection badge *)

(** Events of a run in which no message is named connect or disconnect:
    those two names are the transport's own signals. *)
Definition proper (e : Event * Samples) : Prop :=
  match e.1 with
  | Message _ ev _ => ev ≠ "connect" ∧ ev ≠ "disconnect"
  | _ => True
  end.

(** The mounted feed still has its connect and disconnect listeners on the
    socket it is attached to, and its [isConnected] equals that socket's
    [connected] flag. *)
Definition mirrors (w : World) : Prop :=
  ∀ i s, feed_wiring w = Some (i, Some s) →
    FeedConnect i ∈ listeners_of w s "connect"
    ∧ FeedDisconnect i ∈ listeners_of w s "disconnect"
    ∧ feed_state w = RealTimeUpdates.socket_connected s w.

(** The listener the feed instance [i] files under connect or disconnect. *)
Definition feed_signal (v : bool) (i : nat) : Listener :=
  if v then FeedConnect i else FeedDisconnect i.

(** ** What the feed shows *)

(** What the helpers fall back to for a type they do not know. *)
Definition unknown_icon : Element :=
  {| tag := "div"; className := "h-4 w-4 bg-gray-500 rounded-full" |}.
Definition unknown_title : string := "Unknown Update".
Definition unknown_color : string := "bg-gray-100 text-gray-800".

(** Not the name of a channel the feed listens on. *)
Definition no_channel (ty : string) : Prop := ∀ t, ty ≠ type_name t.

(** ** The page and the Dashboard below it *)

(** The page's own state is settled: logged in with the token that is in
    the storage, or logged out with no token and nothing in the storage
    that the next load would accept. *)
Definition settled (a : Index.App) : Prop :=
  if Index.isAuthenticated a
  then ∃ t, Index.token a = Some t
            ∧ Index.localStorage a !! "disaster_token" = Some t
  else Index.token a = None
       ∧ Index.truthy (Index.localStorage a !! "disaster_token") = false.

(** The tree matches the page: the Dashboard is mounted exactly while the
    page is logged in, and its effect last ran with the page's token. *)
Definition in_step (a : Index.App) : Prop :=
  if Index.isAuthenticated a
  then ∃ i, dash_session (Index.tree a) = Some (i, Index.token a)
  else dashboard (Index.tree a) = None ∧ feed (Index.tree a) = None.

(** Every transport ever opened was given a token. *)
Definition with_token (w : World) : Prop :=
  Forall is_Some (transports w).*1.

(** Actions that are not the page's own. *)
Definition below (e : Index.Action * Samples) : Prop :=
  match e.1 with
  | Index.Below _ => True
  | _ => False
  end.

(** What holds of the page whenever it is idle. *)
Definition page_ok (a : Index.App) : Prop :=
  settled a ∧ in_step a ∧ reachable (Index.tree a)
  ∧ with_token (Index.tree a).

(** * Supporting lemmas *)

(** ** Listener tables *)

Lemma listeners_on ev ev' fn m :
  table_listeners ev (table_on ev' fn m)
  = if decide (ev' = ev) then table_listeners ev m ++ [fn]
    else table_listeners ev m.
Proof.
  unfold table_on, table_listeners at 1. case_decide as E.
  - subst. by rewrite lookup_insert_eq.
  - by rewrite lookup_insert_ne.
Qed.

Lemma listeners_off ev ev' m :
  table_listeners ev (table_off ev' m)
  = if decide (ev' = ev) then [] else table_listeners ev m.
Proof.
  unfold table_off, table_listeners at 1. case_decide as E.
  - subst. by rewrite lookup_delete_eq.
  - by rewrite lookup_delete_ne.
Qed.

Lemma listeners_attach inst ev m :
  table_listeners ev (attach inst m)
  = table_listeners ev m ++ feed_listeners inst ev.
Proof.
  unfold attach, feed_listeners. rewrite !listeners_on.
  case_event ev; try reflexivity.
  rewrite !decide_False by done. by rewrite app_nil_r.
Qed.

Lemma listeners_detach ev m :
  table_listeners ev (detach m)
  = if decide (ev ∈ feed_events) then [] else table_listeners ev m.
Proof.
  unfold detach. rewrite !listeners_off.
  case_event ev; try reflexivity.
  rewrite !decide_False; [done|..]; try done.
  unfold feed_events. rewrite !elem_of_cons, elem_of_nil. intuition congruence.
Qed.

Lemma listeners_opened inst ev :
  table_listeners ev (opened inst)
  = if decide (ev = "connect") then [DashboardConnect inst]
    else if decide (ev = "disconnect") then [DashboardDisconnect inst]
    else [].
Proof.
  unfold opened. rewrite !listeners_on.
  destruct (decide (ev = "connect")) as [->|?]; [reflexivity|].
  destruct (decide (ev = "disconnect")) as [->|?]; [reflexivity|].
  by rewrite !decide_False by done.
Qed.

Lemma type_name_event t : type_name t ∈ feed_events.
Proof. unfold feed_events. destruct t; simpl; set_solver. Qed.

Lemma feed_listeners_channel inst t :
  feed_listeners inst (type_name t) = [FeedChannel inst t].
Proof. by destruct t. Qed.

Lemma type_name_inj t t' : type_name t = type_name t' → t = t'.
Proof. by destruct t, t'. Qed.

Lemma Dashboard_set_sockets i f w : sockets (Dashboard_set i f w) = sockets w.
Proof. unfold Dashboard_set. destruct (dashboard w); [case_decide|]; done. Qed.

Lemma Dashboard_set_feed i f w : feed (Dashboard_set i f w) = feed w.
Proof. unfold Dashboard_set. destruct (dashboard w); [case_decide|]; done. Qed.

Lemma Feed_set_sockets i f w : sockets (Feed_set i f w) = sockets w.
Proof. unfold Feed_set. destruct (feed w); [case_decide|]; done. Qed.

Lemma Feed_set_dashboard i f w : dashboard (Feed_set i f w) = dashboard w.
Proof. unfold Feed_set. destruct (feed w); [case_decide|]; done. Qed.

Lemma call_sockets fn arg env w : sockets (call fn arg env w) = sockets w.
Proof.
  destruct fn; simpl; (apply Dashboard_set_sockets || apply Feed_set_sockets).
Qed.

Lemma call_instances fn arg env w : instances (call fn arg env w) = instances w.
Proof.
  destruct w as [S n [d|] [c|]]; destruct fn; simpl;
    unfold Dashboard_setIsConnected, Feed_setIsConnected, Feed_setUpdates,
      Dashboard_set, Feed_set; simpl;
    try case_decide; reflexivity.
Qed.

Lemma call_wiring fn arg env w : wiring (call fn arg env w) = wiring w.
Proof.
  destruct w as [S n [d|] [c|]]; destruct fn; simpl;
    unfold Dashboard_setIsConnected, Feed_setIsConnected, Feed_setUpdates,
      Dashboard_set, Feed_set; simpl;
    try case_decide; reflexivity.
Qed.

Lemma calls_wiring fns arg env w :
  wiring (foldl (λ w' fn, call fn arg env w') w fns) = wiring w.
Proof.
  revert w. induction fns as [|fn fns IH]; intros w; simpl; [done|].
  by rewrite IH, call_wiring.
Qed.

Lemma calls_sockets fns arg env w :
  sockets (foldl (λ w' fn, call fn arg env w') w fns) = sockets w.
Proof.
  revert w. induction fns as [|fn fns IH]; intros w; simpl; [done|].
  by rewrite IH, call_sockets.
Qed.

Lemma emit_wiring s ev arg env w : wiring (emit s ev arg env w) = wiring w.
Proof. unfold emit. case_match; [apply calls_wiring|done]. Qed.

Lemma emit_sockets s ev arg env w : sockets (emit s ev arg env w) = sockets w.
Proof. unfold emit. case_match; [apply calls_sockets|done]. Qed.

(** Changing the flags of a socket leaves the wiring alone. *)
Lemma update_flags_wiring s f w :
  (∀ sock, callbacks (f sock) = callbacks sock) →
  wiring (update_socket s f w) = wiring w.
Proof.
  intros Hf. unfold wiring, tables. simpl. do 3 f_equal.
  apply list_eq; intros j. rewrite !list_lookup_fmap.
  destruct (decide (s = j)) as [->|].
  - rewrite list_lookup_alter_eq. destruct (sockets w !! j); simpl; [|done].
    by rewrite Hf.
  - by rewrite list_lookup_alter_ne.
Qed.

Lemma close_wiring s env w : wiring (close s env w) = wiring w.
Proof.
  unfold close. case_match; [|done]. case_match.
  - unfold and_then. rewrite emit_wiring. by apply update_flags_wiring.
  - by apply update_flags_wiring.
Qed.

(** ** The wiring invariant *)

Lemma Inv_of_wiring w R D F I : wiring w = (R, D, F, I) → InvW R D F → Inv w.
Proof. unfold Inv, wiring. by intros [= -> -> -> _]. Qed.

Lemma Inv_wiring w w' : wiring w' = wiring w → Inv w → Inv w'.
Proof. intros Hw HI. by eapply Inv_of_wiring. Qed.

Lemma feed_listeners_spec n ev fn :
  fn ∈ feed_listeners n ev → sorted ev fn ∧ owner fn = Some n.
Proof.
  unfold feed_listeners.
  repeat (case_decide; [subst; rewrite list_elem_of_singleton; by intros ->|]).
  by rewrite elem_of_nil.
Qed.

Lemma sorted_owned_event ev fn i :
  sorted ev fn → owner fn = Some i → ev ∈ feed_events.
Proof.
  destruct fn; simpl; try discriminate; intros -> _;
    try apply type_name_event; unfold feed_events; set_solver.
Qed.

Lemma InvW_init : InvW [] None None.
Proof. split; try done. Qed.

Lemma InvW_open R D i :
  InvW R D None →
  InvW (R ++ [opened i]) (Some (Some (length R), Some (length R))) None.
Proof.
  intros [Hso How _ _ _]. split; try done.
  - intros s m ev fn Hs Hfn. apply lookup_app_Some in Hs as [Hs|[_ Hs]].
    + eauto.
    + apply list_lookup_singleton_Some in Hs as [_ <-].
      rewrite listeners_opened in Hfn.
      repeat (case_decide; [subst; apply list_elem_of_singleton in Hfn as ->; done|]).
      by apply elem_of_nil in Hfn.
  - intros s m ev fn j Hs Hfn Hj. apply lookup_app_Some in Hs as [Hs|[_ Hs]].
    + by specialize (How _ _ _ _ _ Hs Hfn Hj).
    + apply list_lookup_singleton_Some in Hs as [_ <-].
      rewrite listeners_opened in Hfn.
      repeat (case_decide; [subst; apply list_elem_of_singleton in Hfn as ->; done|]).
      by apply elem_of_nil in Hfn.
  - intros x [= <-]. eexists; split; [done|]. rewrite length_app. simpl. lia.
Qed.

Lemma InvW_attach R s x n :
  InvW R (Some (Some s, x)) None →
  InvW (alter (attach n) s R) (Some (Some s, x)) (Some (n, Some s)).
Proof.
  intros [Hso How _ Hd _]. split.
  - intros s' m' ev fn Hs Hfn. rewrite list_lookup_alter in Hs.
    case_decide as E; [|eauto]. subst s'.
    destruct (R !! s) as [m|] eqn:Hm; simplify_eq/=.
    rewrite listeners_attach in Hfn. apply elem_of_app in Hfn as [Hfn|Hfn].
    + eauto.
    + by apply feed_listeners_spec in Hfn as [? _].
  - intros s' m' ev fn j Hs Hfn Hj. rewrite list_lookup_alter in Hs.
    case_decide as E.
    + subst s'.
      destruct (R !! s) as [m|] eqn:Hm; simplify_eq/=.
      rewrite listeners_attach in Hfn. apply elem_of_app in Hfn as [Hfn|Hfn].
      * by specialize (How _ _ _ _ _ Hm Hfn Hj).
      * apply feed_listeners_spec in Hfn as [_ ?]. congruence.
    + by specialize (How _ _ _ _ _ Hs Hfn Hj).
  - intros i s' m' t [= <- <-] Hs. rewrite list_lookup_alter_eq in Hs.
    destruct (R !! s) as [m|] eqn:Hm; simplify_eq/=.
    rewrite listeners_attach, feed_listeners_channel.
    replace (table_listeners (type_name t) m) with (@nil Listener); [done|].
    symmetry. apply elem_of_nil_inv. intros fn Hfn.
    destruct (owner fn) as [j|] eqn:Hj.
    + by specialize (How _ _ _ _ _ Hm Hfn Hj).
    + specialize (Hso _ _ _ _ Hm Hfn). destruct fn, t; done.
  - intros ? [= <-]. destruct (Hd _ eq_refl) as (s' & ? & ?).
    exists s'. by rewrite length_alter.
  - intros i o [= <- <-]. by eexists.
Qed.

Lemma InvW_detach R D i s :
  InvW R D (Some (i, Some s)) → InvW (alter detach s R) D None.
Proof.
  intros [Hso How _ Hd _]. split; try done.
  - intros s' m' ev fn Hs Hfn. rewrite list_lookup_alter in Hs.
    case_decide as E; [|eauto]. subst s'.
    destruct (R !! s) as [m|] eqn:Hm; simplify_eq/=.
    rewrite listeners_detach in Hfn. case_decide; [by apply elem_of_nil in Hfn|].
    eauto.
  - intros s' m' ev fn j Hs Hfn Hj. exfalso. rewrite list_lookup_alter in Hs.
    case_decide as E.
    + subst s'.
      destruct (R !! s) as [m|] eqn:Hm; simplify_eq/=.
      rewrite listeners_detach in Hfn.
      case_decide as Hev; [by apply elem_of_nil in Hfn|].
      apply Hev. eapply sorted_owned_event; eauto.
    + specialize (How _ _ _ _ _ Hs Hfn Hj). naive_solver.
  - intros x Hx. destruct (Hd _ Hx) as (s' & ? & ?).
    exists s'. by rewrite length_alter.
Qed.

Lemma InvW_unmount R D : InvW R D None → InvW R None None.
Proof. intros [Hso How _ _ _]. split; try done. Qed.

(** ** What each structural step does to the wiring *)

Lemma alter_last {A} (f : A → A) (l : list A) (x : A) :
  alter f (length l) (l ++ [x]) = l ++ [f x].
Proof.
  rewrite alter_app_r_alt by lia. by rewrite Nat.sub_diag.
Qed.

Lemma tables_on (s : nat) ev fn (l : list Socket) :
  callbacks <$> alter (Socket_on ev fn) s l
  = alter (table_on ev fn) s (callbacks <$> l).
Proof. by apply list_fmap_alter, Forall_true. Qed.

Lemma tables_off (s : nat) ev (l : list Socket) :
  callbacks <$> alter (Socket_off ev) s l
  = alter (table_off ev) s (callbacks <$> l).
Proof. by apply list_fmap_alter, Forall_true. Qed.

Lemma alter_attach n (s : nat) (R : list (gmap string (list Listener))) :
  alter (table_on "social_media_updated" (FeedChannel n social_media_updated)) s
   (alter (table_on "report-update" (FeedChannel n report_update)) s
    (alter (table_on "resource-update" (FeedChannel n resource_update)) s
     (alter (table_on "disaster-update" (FeedChannel n disaster_update)) s
      (alter (table_on "disconnect" (FeedDisconnect n)) s
       (alter (table_on "connect" (FeedConnect n)) s R)))))
  = alter (attach n) s R.
Proof. by rewrite !list_alter_alter_eq. Qed.

Lemma alter_detach (s : nat) (R : list (gmap string (list Listener))) :
  alter (table_off "social_media_updated") s
   (alter (table_off "report-update") s
    (alter (table_off "resource-update") s
     (alter (table_off "disaster-update") s
      (alter (table_off "disconnect") s
       (alter (table_off "connect") s R)))))
  = alter detach s R.
Proof. by rewrite !list_alter_alter_eq. Qed.

Lemma Dashboard_effect_wiring i token w :
  dash_inst <$> dashboard w = Some i →
  wiring (Dashboard.effect i token w)
  = (tables w ++ [opened i],
     Some (Some (length (tables w)), Some (length (tables w))),
     feed_wiring w, Some (i, token)).
Proof.
  destruct w as [S n [d|] F]; intros [= <-].
  unfold Dashboard.effect, and_then, io, on, update_socket, set_sockets,
    Dashboard_setSocket, Dashboard.effect_ran, Dashboard_set,
    wiring, tables, dash_wiring, feed_wiring, dash_session; simpl.
  repeat (rewrite decide_True by done; simpl).
  rewrite !alter_last, fmap_app, length_fmap. reflexivity.
Qed.

Lemma Dashboard_mount_wiring token w :
  dashboard w = None →
  wiring (Dashboard.mount token w)
  = (tables w ++ [opened (instances w)],
     Some (Some (length (tables w)), Some (length (tables w))),
     feed_wiring w, Some (instances w, token)).
Proof.
  intros Hd. unfold Dashboard.mount, and_then.
  rewrite Dashboard_effect_wiring by done. by destruct w.
Qed.

Lemma feed_effect_wiring i s w :
  feed_inst <$> feed w = Some i →
  wiring (RealTimeUpdates.effect i (Some s) w)
  = (alter (attach i) s (tables w), dash_wiring w, Some (i, Some s),
     dash_session w).
Proof.
  destruct w as [S n D [c|]]; intros [= <-].
  unfold RealTimeUpdates.effect, and_then, on, update_socket, set_sockets,
    Feed_setIsConnected, RealTimeUpdates.effect_ran, Feed_set,
    wiring, tables, dash_wiring, feed_wiring; simpl.
  repeat (rewrite decide_True by done; simpl).
  by rewrite !tables_on, alter_attach.
Qed.

Lemma feed_cleanup_wiring c s w :
  feed_deps c = Some s →
  wiring (RealTimeUpdates.cleanup c w)
  = (alter detach s (tables w), dash_wiring w, feed_wiring w,
     dash_session w).
Proof.
  intros Hs. unfold RealTimeUpdates.cleanup. rewrite Hs.
  unfold and_then, off, update_socket, set_sockets, wiring, tables; simpl.
  by rewrite !tables_off, alter_detach.
Qed.

Lemma Feed_setUpdates_wiring i f w : wiring (Feed_setUpdates i f w) = wiring w.
Proof.
  destruct w as [S n D [c|]]; unfold Feed_setUpdates, Feed_set; simpl;
    try case_decide; reflexivity.
Qed.

Lemma feed_wiring_Some w i o :
  feed_wiring w = Some (i, o) ↔
  ∃ c, feed w = Some c ∧ feed_inst c = i ∧ feed_deps c = o.
Proof.
  unfold feed_wiring. destruct (feed w) as [c|]; simpl; split.
  - intros [= <- <-]. by exists c.
  - by intros (? & [= <-] & <- & <-).
  - done.
  - by intros (? & ? & _).
Qed.

Lemma feed_wiring_None w : feed_wiring w = None ↔ feed w = None.
Proof. unfold feed_wiring. by destruct (feed w). Qed.

(** What the invariant says about the mounted components. *)
Lemma Inv_dashboard w d :
  Inv w → dashboard w = Some d →
  ∃ s, dash_socket d = Some s ∧ dash_cleanup d = Some s
       ∧ s < length (sockets w).
Proof.
  intros [_ _ _ Hd _] Hw. unfold dash_wiring, tables in Hd. rewrite Hw in Hd.
  destruct (Hd _ eq_refl) as (s & [= ? ?] & Hs). rewrite length_fmap in Hs.
  eauto.
Qed.

Lemma Inv_feed w c :
  Inv w → feed w = Some c →
  ∃ d s, dashboard w = Some d ∧ dash_socket d = Some s
         ∧ feed_deps c = Some s ∧ s < length (sockets w).
Proof.
  intros HI Hc. pose proof HI as [_ _ _ _ Hf].
  unfold feed_wiring, dash_wiring in Hf. rewrite Hc in Hf.
  destruct (Hf _ _ eq_refl) as (x & Hx & Ho).
  destruct (dashboard w) as [d|] eqn:Hd; [|done].
  destruct (Inv_dashboard _ _ HI Hd) as (s & Hs & _ & Hlt).
  exists d, s. simplify_eq/=. split_and!; congruence.
Qed.

Lemma Inv_init : Inv World_init.
Proof. apply InvW_init. Qed.

Lemma Inv_mount_dashboard token w :
  Inv w → dashboard w = None → Inv (Dashboard.mount token w).
Proof.
  intros HI Hd.
  eapply Inv_of_wiring; [by apply Dashboard_mount_wiring|].
  assert (feed_wiring w = None) as Hf.
  { apply feed_wiring_None. destruct (feed w) as [c|] eqn:Hc; [|done].
    destruct (Inv_feed _ _ HI Hc) as (? & ? & ? & _). congruence. }
  rewrite Hf. apply InvW_open with (D := dash_wiring w). by rewrite <- Hf.
Qed.

Lemma Inv_show w d :
  Inv w → dashboard w = Some d → feed w = None →
  Inv (RealTimeUpdates.mount (dash_socket d) w).
Proof.
  intros HI Hd Hc. destruct (Inv_dashboard _ _ HI Hd) as (s & Hs & Hs' & _).
  rewrite Hs. unfold RealTimeUpdates.mount, and_then.
  eapply Inv_of_wiring; [by apply feed_effect_wiring|].
  revert HI. unfold Inv, tables, dash_wiring, feed_wiring; simpl.
  rewrite Hd, Hc. simpl. rewrite Hs, Hs'. apply InvW_attach.
Qed.

Lemma Inv_hide w c :
  Inv w → feed w = Some c →
  Inv ((set_feed None >>> RealTimeUpdates.cleanup c) w).
Proof.
  intros HI Hc. destruct (Inv_feed _ _ HI Hc) as (d & s & Hd & Hs & Hcs & _).
  unfold and_then. eapply Inv_of_wiring; [by apply feed_cleanup_wiring|].
  revert HI. unfold Inv, tables, dash_wiring, feed_wiring; simpl.
  rewrite Hc. simpl. rewrite Hcs. apply InvW_detach.
Qed.

Lemma Inv_unmount w d env :
  Inv w → dashboard w = Some d →
  Inv ((set_dashboard None
        >>> set_feed None
        >>> Dashboard.cleanup d env
        >>> match feed w with
            | Some c => RealTimeUpdates.cleanup c
            | None => skip
            end) w).
Proof.
  intros HI Hd. cbv [and_then].
  remember (Dashboard.cleanup d env (set_feed None (set_dashboard None w)))
    as w1 eqn:Ew1.
  assert (wiring w1 = (tables w, None, None, None)) as Hw1.
  { subst w1. unfold Dashboard.cleanup. destruct (dash_cleanup d); [|done].
    by rewrite close_wiring. }
  clear Ew1.
  destruct (feed w) as [c|] eqn:Hc.
  - destruct (Inv_feed _ _ HI Hc) as (? & s & _ & _ & Hcs & _).
    eapply Inv_of_wiring; [by apply feed_cleanup_wiring|].
    injection Hw1 as -> -> -> _.
    apply InvW_unmount with (D := dash_wiring w).
    revert HI. unfold Inv, feed_wiring. rewrite Hc. simpl. rewrite Hcs.
    apply InvW_detach.
  - eapply Inv_of_wiring; [exact Hw1|].
    apply InvW_unmount with (D := dash_wiring w).
    revert HI. unfold Inv, feed_wiring. by rewrite Hc.
Qed.

Lemma wiring_eq w R D F I :
  wiring w = (R, D, F, I) →
  tables w = R ∧ dash_wiring w = D ∧ feed_wiring w = F
  ∧ dash_session w = I.
Proof. unfold wiring. by intros [= -> -> -> ->]. Qed.

Lemma dash_session_inst w i token :
  dash_session w = Some (i, token) → dash_inst <$> dashboard w = Some i.
Proof.
  unfold dash_session. destruct (dashboard w); simpl; [|done].
  by intros [= -> _].
Qed.

Lemma socket_prop_wiring w o x :
  dash_wiring w = Some (o, x) → socket_prop w = o.
Proof.
  unfold dash_wiring, socket_prop. destruct (dashboard w); simpl; congruence.
Qed.

Lemma Inv_render_changed w d token env :
  Inv w → dashboard w = Some d →
  Inv ((Dashboard.cleanup d env
        >>> Dashboard.effect (dash_inst d) token
        >>> (λ w', RealTimeUpdates.rerender (socket_prop w') w')) w).
Proof.
  intros HI Hd. cbv [and_then].
  destruct (Inv_dashboard _ _ HI Hd) as (s & Hs & Hcl & Hlt).
  remember (Dashboard.cleanup d env w) as w1 eqn:Ew1.
  assert (wiring w1 = wiring w) as Hw1.
  { subst w1. unfold Dashboard.cleanup. rewrite Hcl. apply close_wiring. }
  clear Ew1. apply wiring_eq in Hw1 as (Ht1 & Hd1 & Hf1 & Hi1).
  unfold dash_session at 2 in Hi1. rewrite Hd in Hi1. simpl in Hi1.
  apply dash_session_inst in Hi1.
  remember (Dashboard.effect (dash_inst d) token w1) as w2 eqn:Ew2.
  pose proof (Dashboard_effect_wiring _ token _ Hi1) as Hw2.
  rewrite <- Ew2, Ht1, Hf1 in Hw2. clear Ew2.
  pose proof Hw2 as (Ht2 & Hd2 & Hf2 & _)%wiring_eq.
  rewrite (socket_prop_wiring _ _ _ Hd2).
  assert (length (tables w) = length (sockets w)) as Hlen
    by apply length_fmap.
  unfold RealTimeUpdates.rerender.
  destruct (feed w2) as [c2|] eqn:Hc2.
  - assert (feed_wiring w = Some (feed_inst c2, feed_deps c2)) as Hfw.
    { rewrite <- Hf2. unfold feed_wiring. by rewrite Hc2. }
    pose proof Hfw as (c & Hc & Hci & Hcd)%feed_wiring_Some.
    destruct (Inv_feed _ _ HI Hc) as (d' & s' & Hd' & Hs' & Hcs & _).
    assert (s' = s) as -> by congruence.
    rewrite Hcs in Hcd. case_decide as E; [rewrite <- Hcd in E; simplify_eq; lia|].
    cbv [and_then].
    pose proof (feed_cleanup_wiring c2 s w2 (eq_sym Hcd))
      as (Ht3 & Hd3 & Hf3 & _)%wiring_eq.
    eapply Inv_of_wiring.
    { apply feed_effect_wiring. revert Hf3. unfold feed_wiring.
      rewrite Hc2. destruct (feed (RealTimeUpdates.cleanup c2 w2)); simpl;
        intros ?; simplify_eq/=; congruence. }
    rewrite Ht3, Hd3, Ht2, Hd2, alter_app_l by lia.
    apply InvW_attach.
    replace (length (tables w)) with (length (alter detach s (tables w)))
      by apply length_alter.
    apply InvW_open with (D := dash_wiring w).
    apply InvW_detach with (i := feed_inst c2).
    unfold Inv in HI. by rewrite Hfw, <- Hcd in HI.
  - eapply Inv_of_wiring; [exact Hw2|].
    assert (feed_wiring w = None) as Hfw.
    { rewrite <- Hf2. unfold feed_wiring. by rewrite Hc2. }
    rewrite Hfw. apply InvW_open with (D := dash_wiring w). by rewrite <- Hfw.
Qed.

(** The invariant holds along every run. *)
Lemma Inv_step w e : Inv w → Inv (step w e).
Proof.
  intros HI. destruct e as [[token| | | | |s|s|s ev arg] env];
    unfold step; simpl.
  - destruct (dashboard w) as [d|] eqn:Hd.
    + case_decide; [done|]. by apply Inv_render_changed.
    + by apply Inv_mount_dashboard.
  - destruct (dashboard w) as [d|] eqn:Hd; [|done]. by apply Inv_unmount.
  - destruct (dashboard w) as [d|] eqn:Hd; [|done].
    destruct (feed w) as [c|] eqn:Hc; [done|]. by apply Inv_show.
  - destruct (feed w) as [c|] eqn:Hc; [|done]. by apply Inv_hide.
  - unfold RealTimeUpdates.onClick_clear. destruct (feed w); [|done].
    eapply Inv_wiring; [apply Feed_setUpdates_wiring|done].
  - cbv [and_then]. eapply Inv_wiring; [|done].
    rewrite emit_wiring. by apply update_flags_wiring.
  - cbv [and_then]. eapply Inv_wiring; [|done].
    rewrite emit_wiring. by apply update_flags_wiring.
  - eapply Inv_wiring; [apply emit_wiring|done].
Qed.

Lemma Inv_run trace : ∀ w, Inv w → Inv (run w trace).
Proof.
  induction trace as [|e trace IH]; intros w HI; simpl; [done|].
  apply IH. by apply Inv_step.
Qed.

Lemma reachable_Inv w : reachable w → Inv w.
Proof. intros [trace <-]. apply Inv_run, Inv_init. Qed.

(** ** How the retained records evolve *)

Lemma records_Dashboard_set i f w : records (Dashboard_set i f w) = records w.
Proof. unfold records. by rewrite Dashboard_set_feed. Qed.

Lemma records_Feed_set i f w :
  (∀ c, feed_updates (f c) = feed_updates c) →
  records (Feed_set i f w) = records w.
Proof.
  intros Hf. unfold records, Feed_set.
  destruct w as [S n D [c|]]; simpl; [case_decide|]; simpl; auto.
Qed.

Lemma records_on s ev fn w : records (on s ev fn w) = records w.
Proof. done. Qed.

Lemma records_off s ev w : records (off s ev w) = records w.
Proof. done. Qed.

Section closed.
(** A property of feeds that holds of the empty feed and survives every
    [addUpdate] holds of [records()] after every step. *)
Context (P : list RealTimeUpdate → Prop).
Hypothesis P_nil : P [].
Hypothesis P_add : ∀ t d env l, P l → P (addUpdate t d env l).

Lemma closed_call fn arg env w :
  P (records w) → P (records (call fn arg env w)).
Proof.
  intros HP. destruct fn; simpl.
  1,2: unfold Dashboard_setIsConnected; by rewrite records_Dashboard_set.
  1,2: unfold Feed_setIsConnected; by rewrite records_Feed_set.
  unfold Feed_setUpdates, Feed_set, records in *.
  destruct w as [S n D [c|]]; simpl in *; [case_decide|]; simpl; auto.
Qed.

Lemma closed_emit s ev arg env w :
  P (records w) → P (records (emit s ev arg env w)).
Proof.
  unfold emit. destruct (sockets w !! s) as [sock|]; [|done].
  generalize (listeners ev sock). intros fns. revert w.
  induction fns as [|fn fns IH]; intros w HP; simpl; [done|].
  by apply IH, closed_call.
Qed.

Lemma closed_close s env w :
  P (records w) → P (records (close s env w)).
Proof.
  intros HP. unfold close. destruct (sockets w !! s) as [sock|]; [|done].
  destruct (connected sock); [|done]. cbv [and_then]. by apply closed_emit.
Qed.

Lemma closed_feed_effect i o w :
  P (records w) → P (records (RealTimeUpdates.effect i o w)).
Proof.
  intros HP. destruct o as [s|]; unfold RealTimeUpdates.effect;
    cbv [and_then].
  - unfold RealTimeUpdates.effect_ran. rewrite records_Feed_set by done.
    rewrite !records_on.
    unfold Feed_setIsConnected. by rewrite records_Feed_set.
  - unfold RealTimeUpdates.effect_ran. by rewrite records_Feed_set.
Qed.

Lemma closed_feed_cleanup c w :
  P (records w) → P (records (RealTimeUpdates.cleanup c w)).
Proof.
  unfold RealTimeUpdates.cleanup. destruct (feed_deps c); [|done].
  cbv [and_then]. by rewrite !records_off.
Qed.

Lemma closed_dashboard_effect i token w :
  P (records w) → P (records (Dashboard.effect i token w)).
Proof.
  intros HP. unfold Dashboard.effect, Dashboard.effect_ran,
    Dashboard_setSocket. cbv [and_then].
  by rewrite !records_Dashboard_set.
Qed.

Lemma closed_step w e : P (records w) → P (records (step w e)).
Proof.
  intros HP. destruct e as [[token| | | | |s|s|s ev arg] env];
    unfold step; simpl.
  - destruct (dashboard w) as [d|].
    + case_decide; [done|]. cbv [and_then].
      unfold RealTimeUpdates.rerender.
      set (w2 := Dashboard.effect _ _ _).
      assert (P (records w2)) as HP2.
      { apply closed_dashboard_effect. unfold Dashboard.cleanup.
        destruct (dash_cleanup d); [by apply closed_close|done]. }
      destruct (feed w2) as [c|] eqn:Hc; [|done].
      case_decide; [done|]. cbv [and_then].
      by apply closed_feed_effect, closed_feed_cleanup.
    + unfold Dashboard.mount. cbv [and_then].
      by apply closed_dashboard_effect.
  - destruct (dashboard w) as [d|]; [|done]. cbv [and_then].
    assert (P (records (Dashboard.cleanup d env
                          (set_feed None (set_dashboard None w))))) as HP1.
    { unfold Dashboard.cleanup.
      destruct (dash_cleanup d); [by apply closed_close|done]. }
    destruct (feed w); [by apply closed_feed_cleanup|done].
  - destruct (dashboard w) as [d|]; [|done]. destruct (feed w); [done|].
    unfold RealTimeUpdates.mount. cbv [and_then].
    by apply closed_feed_effect.
  - destruct (feed w) as [c|]; [|done]. cbv [and_then].
    by apply closed_feed_cleanup.
  - unfold RealTimeUpdates.onClick_clear, Feed_setUpdates, Feed_set, records.
    destruct (feed w) as [c|] eqn:Hc; [|by rewrite Hc].
    by rewrite decide_True.
  - cbv [and_then]. by apply closed_emit.
  - cbv [and_then]. by apply closed_emit.
  - by apply closed_emit.
Qed.

Lemma closed_run trace : ∀ w, P (records w) → P (records (run w trace)).
Proof.
  induction trace as [|e trace IH]; intros w HP; simpl; [done|].
  by apply IH, closed_step.
Qed.
End closed.

Lemma addUpdate_length t d env l :
  length l ≤ CAPACITY → length (addUpdate t d env l) ≤ CAPACITY.
Proof.
  unfold addUpdate, slice0, CAPACITY. simpl. rewrite length_take. lia.
Qed.

(** ** One inbound message *)

Lemma message_step w c s t d env :
  Inv w → feed w = Some c → feed_deps c = Some s →
  step w (Message s (type_name t) d, env)
  = Feed_setUpdates (feed_inst c) (addUpdate t d env) w.
Proof.
  intros HI Hc Hs. unfold step, emit; simpl.
  destruct (Inv_feed _ _ HI Hc) as (_ & s' & _ & _ & Hs' & Hlt).
  assert (s' = s) as -> by congruence.
  destruct (lookup_lt_is_Some_2 _ _ Hlt) as [sock Hsock]. rewrite Hsock.
  pose proof HI as [_ _ Hat _ _]. unfold listeners.
  rewrite (Hat (feed_inst c) s (callbacks sock) t); [done|..].
  - unfold feed_wiring. rewrite Hc. simpl. by rewrite Hs.
  - unfold tables. by rewrite list_lookup_fmap, Hsock.
Qed.

Lemma Feed_setUpdates_own w c f :
  feed w = Some c →
  Feed_setUpdates (feed_inst c) f w
  = set_feed (Some {| feed_inst := feed_inst c;
                      feed_updates := f (feed_updates c);
                      feed_isConnected := feed_isConnected c;
                      feed_deps := feed_deps c |}) w.
Proof.
  intros Hc. unfold Feed_setUpdates, Feed_set. rewrite Hc.
  by rewrite decide_True.
Qed.

Lemma message_records w c s t d env :
  Inv w → feed w = Some c → feed_deps c = Some s →
  records (step w (Message s (type_name t) d, env))
  = addUpdate t d env (records w).
Proof.
  intros HI Hc Hs. rewrite (message_step w c s) by done.
  rewrite Feed_setUpdates_own by done. unfold records. simpl. by rewrite Hc.
Qed.

(** ** Runs of inbound messages *)

Lemma addUpdate_as_slice : addUpdate = addUpdate_slice 49.
Proof. reflexivity. Qed.

Lemma feed_after_take k msgs : ∀ prev,
  length prev ≤ S k →
  feed_after k prev msgs = take (S k) (reverse (record_of <$> msgs) ++ prev).
Proof.
  induction msgs as [|m msgs IH]; intros prev Hlen.
  - unfold feed_after. simpl. by rewrite take_ge.
  - unfold feed_after in *. rewrite fmap_cons. simpl. rewrite IH.
    + rewrite reverse_cons, <- app_assoc. simpl.
      unfold addUpdate_slice, slice0.
      destruct (decide (length (reverse (record_of <$> msgs)) ≤ S k)).
      * rewrite !take_app_ge by done. f_equal.
        destruct (S k - length (reverse (record_of <$> msgs))) as [|j] eqn:E;
          [done|].
        simpl. f_equal. rewrite take_take. f_equal. lia.
      * by rewrite !take_app_le by lia.
    + unfold addUpdate_slice, slice0. simpl. rewrite length_take. lia.
Qed.

Lemma run_arrivals s msgs : ∀ w c,
  Inv w → feed w = Some c → feed_deps c = Some s →
  records (run w (arrival s <$> msgs)) = feed_after 49 (records w) msgs.
Proof.
  induction msgs as [|m msgs IH]; intros w c HI Hc Hs; [done|].
  simpl. unfold arrival at 1.
  pose proof (message_step w c s m.1.1 m.1.2 m.2 HI Hc Hs) as Hstep.
  rewrite Feed_setUpdates_own in Hstep by done.
  erewrite IH.
  - rewrite Hstep. unfold records at 1. simpl.
    unfold records. by rewrite Hc.
  - by apply Inv_step.
  - by rewrite Hstep.
  - done.
Qed.

Lemma records_bounded trace : length (records (run World_init trace)) ≤ CAPACITY.
Proof.
  apply closed_run with (P := λ l, length l ≤ CAPACITY).
  - simpl. lia.
  - apply addUpdate_length.
  - simpl. lia.
Qed.

Lemma reachable_bounded w : reachable w → length (records w) ≤ CAPACITY.
Proof. intros [trace <-]. apply records_bounded. Qed.

(** ** After the feed has detached *)

Lemma InvW_quiet R D s m ev fn :
  InvW R D None → R !! s = Some m → fn ∈ table_listeners ev m →
  owner fn = None.
Proof.
  intros [_ How _ _ _] Hs Hfn. destruct (owner fn) as [i|] eqn:Hi; [|done].
  by specialize (How _ _ _ _ _ Hs Hfn Hi).
Qed.

Lemma InvW_no_channel R D s m t :
  InvW R D None → R !! s = Some m → table_listeners (type_name t) m = [].
Proof.
  intros HI Hs. apply elem_of_nil_inv. intros fn Hfn.
  pose proof (InvW_quiet _ _ _ _ _ _ HI Hs Hfn) as Hown.
  destruct HI as [Hso _ _ _ _]. specialize (Hso _ _ _ _ Hs Hfn).
  destruct fn, t; done.
Qed.

Lemma calls_unowned fns arg env : ∀ w,
  Forall (λ fn, owner fn = None) fns →
  records (foldl (λ w' fn, call fn arg env w') w fns) = records w.
Proof.
  induction fns as [|fn fns IH]; intros w Hfns; simpl; [done|].
  apply Forall_cons in Hfns as [Hfn Hfns]. rewrite IH by done.
  destruct fn; simpl in *; try done;
    unfold Dashboard_setIsConnected; apply records_Dashboard_set.
Qed.

Lemma quiet_emit s ev arg env w :
  quiet w → records (emit s ev arg env w) = records w.
Proof.
  intros Hq. unfold emit. destruct (sockets w !! s) as [sock|] eqn:Hs; [|done].
  apply calls_unowned, Forall_forall. intros fn Hfn.
  apply (Hq s (callbacks sock) ev fn); [|done].
  unfold tables. by rewrite list_lookup_fmap, Hs.
Qed.

Lemma tables_emit s ev arg env w : tables (emit s ev arg env w) = tables w.
Proof. unfold tables. by rewrite emit_sockets. Qed.

Lemma tables_set_connected s v w :
  tables (update_socket s (Socket_set_connected v) w) = tables w.
Proof.
  by apply (wiring_eq _ _ _ _ _
              (update_flags_wiring s (Socket_set_connected v) w (λ _, eq_refl))).
Qed.

Lemma quiet_step w e :
  quiet w → from_transport e →
  quiet (step w e) ∧ records (step w e) = records w.
Proof.
  intros Hq. destruct e as [[token| | | | |s|s|s ev arg] env];
    unfold from_transport; simpl; try done; intros _; unfold step; simpl;
    cbv [and_then].
  - split.
    + unfold quiet. by rewrite tables_emit, tables_set_connected.
    + rewrite quiet_emit; [done|]. unfold quiet.
      by rewrite tables_set_connected.
  - split.
    + unfold quiet. by rewrite tables_emit, tables_set_connected.
    + rewrite quiet_emit; [done|]. unfold quiet.
      by rewrite tables_set_connected.
  - split; [|by apply quiet_emit].
    unfold quiet. by rewrite tables_emit.
Qed.

Lemma quiet_run trace : ∀ w,
  quiet w → Forall from_transport trace → records (run w trace) = records w.
Proof.
  induction trace as [|e trace IH]; intros w Hq Htr; simpl; [done|].
  apply Forall_cons in Htr as [He Htr].
  destruct (quiet_step w e Hq He) as [Hq' Hrec].
  by rewrite IH, Hrec.
Qed.

(** The wiring right after the feed's cleanup ran still satisfies the
    invariant of a world with no feed. *)
Lemma cleanup_InvW w c :
  Inv w → feed w = Some c →
  InvW (tables (RealTimeUpdates.cleanup c w)) (dash_wiring w) None.
Proof.
  intros HI Hc. destruct (Inv_feed _ _ HI Hc) as (_ & s & _ & _ & Hs & _).
  rewrite (proj1 (wiring_eq _ _ _ _ _ (feed_cleanup_wiring c s w Hs))).
  apply InvW_detach with (i := feed_inst c).
  unfold Inv, feed_wiring in HI. rewrite Hc in HI. simpl in HI.
  by rewrite Hs in HI.
Qed.

(** ** Connection state *)

Lemma transitions_alternate obs : ∀ prev,
  alternates (negb prev) (transitions prev obs).
Proof.
  induction obs as [|b obs IH]; intros prev; simpl; [done|].
  destruct (Bool.eqb b prev) eqn:E; [apply IH|]. simpl.
  apply Bool.eqb_false_iff in E. split; [by destruct b, prev|].
  replace (negb (negb prev)) with (negb b) by (by destruct b, prev).
  apply IH.
Qed.

Lemma sorted_signal v fn : sorted (signal_name v) fn → signal_listener v fn.
Proof. destruct v, fn; simpl; try done; by destruct t. Qed.

Lemma call_signal v fn arg env w :
  signal_listener v fn →
  records (call fn arg env w) = records w
  ∧ (dash_state w = v → dash_state (call fn arg env w) = v)
  ∧ (feed_state w = v → feed_state (call fn arg env w) = v).
Proof.
  unfold dash_state, feed_state, records.
  destruct w as [S n [d|] [c|]], fn; simpl; try done; intros ->;
    unfold Dashboard_setIsConnected, Feed_setIsConnected,
      Dashboard_set, Feed_set; simpl;
    try case_decide; done.
Qed.

Lemma calls_signal v fns arg env : ∀ w,
  Forall (signal_listener v) fns →
  let w' := foldl (λ w' fn, call fn arg env w') w fns in
  records w' = records w
  ∧ (dash_state w = v → dash_state w' = v)
  ∧ (feed_state w = v → feed_state w' = v).
Proof.
  induction fns as [|fn fns IH]; intros w Hfns; simpl; [done|].
  apply Forall_cons in Hfns as [Hfn Hfns].
  destruct (call_signal v fn arg env w Hfn) as (Hr & Hd & Hf).
  destruct (IH (call fn arg env w) Hfns) as (Hr' & Hd' & Hf').
  split_and!; [congruence|auto..].
Qed.

Lemma signal_step v s arg env w :
  Inv w →
  let w' := (update_socket s (Socket_set_connected v)
             >>> emit s (signal_name v) arg env) w in
  records w' = records w
  ∧ (dash_state w = v → dash_state w' = v)
  ∧ (feed_state w = v → feed_state w' = v).
Proof.
  intros HI. cbv [and_then]. unfold emit.
  set (w1 := update_socket s (Socket_set_connected v) w).
  destruct (sockets w1 !! s) as [sock|] eqn:Hs; [|done].
  apply (calls_signal v _ arg env w1), Forall_forall. intros fn Hfn.
  apply sorted_signal. destruct HI as [Hso _ _ _ _].
  apply (Hso s (callbacks sock)); [|done].
  rewrite <- (tables_set_connected s v w). fold w1.
  unfold tables. by rewrite list_lookup_fmap, Hs.
Qed.

(** The feed's cleanup calls [socket.off("connect")] and
    [socket.off("disconnect")] on the socket it shares with the Dashboard,
    so the Dashboard's own listeners go with it: once the Real-time tab
    has been left, a connect on that socket no longer reaches the
    Dashboard's [isConnected]. *)
Example detach_also_unhooks_the_dashboard :
  let w := run World_init
             [ (Render (Some "tok"), at_epoch); (ShowRealtimeTab, at_epoch);
               (HideRealtimeTab, at_epoch); (Connect 0, at_epoch) ] in
  (connected <$> sockets w !! 0) = Some true ∧ dash_state w = false.
Proof. vm_compute. done. Qed.

(** ** Transports *)

Lemma transports_update_same s f w :
  (∀ k, auth_token (f k) = auth_token k ∧ closed (f k) = closed k) →
  transports (update_socket s f w) = transports w.
Proof.
  intros Hf. unfold transports. simpl.
  rewrite (list_fmap_alter _ f (λ p, p)).
  - by apply list_alter_id.
  - apply Forall_true. intros k. destruct (Hf k) as [-> ->]. done.
Qed.

Lemma transports_close s env w :
  transports (close s env w) = alter released s (transports w).
Proof.
  unfold close, transports.
  destruct (sockets w !! s) as [sock|] eqn:Hs.
  - destruct (connected sock); cbv [and_then]; rewrite ?emit_sockets; simpl;
      by apply list_fmap_alter, Forall_true.
  - symmetry. apply list_eq. intros j. rewrite list_lookup_alter.
    case_decide; [subst j|done]. by rewrite list_lookup_fmap, Hs.
Qed.

Lemma transports_dashboard_effect i token w :
  transports (Dashboard.effect i token w) = transports w ++ [(token, false)].
Proof.
  unfold Dashboard.effect, Dashboard.effect_ran, Dashboard_setSocket,
    transports. cbv [and_then].
  rewrite !Dashboard_set_sockets. unfold on, io, update_socket. simpl.
  by rewrite !alter_last, fmap_app.
Qed.

Lemma transports_on s ev fn w : transports (on s ev fn w) = transports w.
Proof. by apply transports_update_same. Qed.

Lemma transports_off s ev w : transports (off s ev w) = transports w.
Proof. by apply transports_update_same. Qed.

Lemma transports_Feed_set i f w : transports (Feed_set i f w) = transports w.
Proof. unfold transports. by rewrite Feed_set_sockets. Qed.

Lemma transports_feed_effect i o w :
  transports (RealTimeUpdates.effect i o w) = transports w.
Proof.
  unfold RealTimeUpdates.effect, RealTimeUpdates.effect_ran,
    Feed_setIsConnected. destruct o as [s|]; cbv [and_then].
  - by rewrite transports_Feed_set, !transports_on, transports_Feed_set.
  - by rewrite transports_Feed_set.
Qed.

Lemma transports_feed_cleanup c w :
  transports (RealTimeUpdates.cleanup c w) = transports w.
Proof.
  unfold RealTimeUpdates.cleanup. destruct (feed_deps c) as [s|]; [|done].
  cbv [and_then]. by rewrite !transports_off.
Qed.

Lemma transports_rerender o w :
  transports (RealTimeUpdates.rerender o w) = transports w.
Proof.
  unfold RealTimeUpdates.rerender. destruct (feed w) as [c|]; [|done].
  case_decide; [done|]. cbv [and_then].
  by rewrite transports_feed_effect, transports_feed_cleanup.
Qed.

Lemma socket_prop_dashboard_effect i token w :
  dash_inst <$> dashboard w = Some i →
  socket_prop (Dashboard.effect i token w) = Some (length (sockets w)).
Proof.
  intros Hi. eapply socket_prop_wiring.
  rewrite (proj1 (proj2 (wiring_eq _ _ _ _ _
             (Dashboard_effect_wiring i token w Hi)))).
  unfold tables. by rewrite length_fmap.
Qed.

Lemma socket_prop_rerender w :
  socket_prop (RealTimeUpdates.rerender (socket_prop w) w) = socket_prop w.
Proof.
  unfold RealTimeUpdates.rerender. destruct (feed w) as [c|]; [|done].
  case_decide; [done|]. unfold socket_prop at 1 3. cbv [and_then].
  f_equal. unfold RealTimeUpdates.effect.
  destruct (socket_prop w) as [s|]; cbv [and_then];
    unfold RealTimeUpdates.effect_ran, Feed_setIsConnected;
    rewrite ?Feed_set_dashboard; unfold on; simpl;
    rewrite ?Feed_set_dashboard;
    unfold RealTimeUpdates.cleanup; destruct (feed_deps c); done.
Qed.

Lemma close_dash_inst d env w :
  dashboard w = Some d →
  dash_inst <$> dashboard (Dashboard.cleanup d env w) = Some (dash_inst d).
Proof.
  intros Hd. unfold Dashboard.cleanup.
  destruct (dash_cleanup d) as [s|]; [|by unfold skip; rewrite Hd].
  apply (dash_session_inst _ _ (dash_deps d)).
  rewrite (proj2 (proj2 (proj2 (wiring_eq _ _ _ _ _ (close_wiring s env w))))).
  unfold dash_session. by rewrite Hd.
Qed.

(** ** One live transport *)

Lemma live_liveW w :
  live w ↔ liveW (transports w) (dash_wiring w) (dash_session w).
Proof.
  unfold live, liveW, dash_wiring, dash_session.
  by destruct (dashboard w).
Qed.

Lemma live_wiring w w' :
  wiring w' = wiring w → transports w' = transports w → live w → live w'.
Proof.
  intros (_ & Hd & _ & Hs)%wiring_eq Ht. rewrite !live_liveW.
  by rewrite Hd, Hs, Ht.
Qed.

Lemma released_last (olds : list (option string * bool)) p :
  Forall (λ p, p.2 = true) olds →
  Forall (λ p, p.2 = true) (alter released (length olds) (olds ++ [p])).
Proof.
  intros Holds. rewrite alter_last. apply Forall_app. split; [done|].
  by apply Forall_singleton.
Qed.

Lemma live_dashboard_same w w' :
  dashboard w' = dashboard w → transports w' = transports w →
  live w → live w'.
Proof. unfold live. by intros -> ->. Qed.

Lemma live_opened i token w w2 :
  dash_inst <$> dashboard w = Some i →
  Forall (λ p, p.2 = true) (transports w) →
  dashboard w2 = dashboard (Dashboard.effect i token w) →
  transports w2 = transports (Dashboard.effect i token w) →
  live w2.
Proof.
  intros Hi Hrel Hd2 Ht2.
  pose proof (Dashboard_effect_wiring i token w Hi)
    as (_ & Hd & _ & Hs)%wiring_eq.
  rewrite transports_dashboard_effect in Ht2.
  apply live_liveW. unfold dash_wiring, dash_session in *.
  rewrite Hd2, Hd, Hs, Ht2. simpl.
  exists (transports w). split_and!; [done..|].
  f_equal. unfold tables, transports. by rewrite !length_fmap.
Qed.

Lemma dashboard_rerender o w :
  dashboard (RealTimeUpdates.rerender o w) = dashboard w.
Proof.
  unfold RealTimeUpdates.rerender. destruct (feed w) as [c|]; [|done].
  case_decide; [done|]. cbv [and_then].
  unfold RealTimeUpdates.effect, RealTimeUpdates.effect_ran,
    Feed_setIsConnected.
  destruct o as [s|]; cbv [and_then]; rewrite ?Feed_set_dashboard;
    unfold on; simpl; rewrite ?Feed_set_dashboard;
    unfold RealTimeUpdates.cleanup; by destruct (feed_deps c).
Qed.

Lemma live_closed d env w :
  live w → dashboard w = Some d → dash_cleanup d = dash_socket d →
  Forall (λ p, p.2 = true) (transports (Dashboard.cleanup d env w)).
Proof.
  unfold live. intros Hl Hd Hcl. rewrite Hd in Hl.
  destruct Hl as (olds & Ht & Holds & Hs).
  unfold Dashboard.cleanup. rewrite Hcl, Hs, transports_close, Ht.
  by apply released_last.
Qed.

Lemma dashboard_feed_cleanup c w :
  dashboard (RealTimeUpdates.cleanup c w) = dashboard w.
Proof. unfold RealTimeUpdates.cleanup. by destruct (feed_deps c). Qed.

Lemma dashboard_feed_effect i o w :
  dashboard (RealTimeUpdates.effect i o w) = dashboard w.
Proof.
  unfold RealTimeUpdates.effect, RealTimeUpdates.effect_ran,
    Feed_setIsConnected.
  destruct o as [s|]; cbv [and_then]; rewrite ?Feed_set_dashboard;
    unfold on; simpl; by rewrite ?Feed_set_dashboard.
Qed.

Lemma live_step w e : Inv w → live w → live (step w e).
Proof.
  intros HI Hl. destruct e as [[token| | | | |s|s|s ev arg] env];
    unfold step; simpl.
  - destruct (dashboard w) as [d|] eqn:Hd.
    + case_decide; [done|]. cbv [and_then].
      destruct (Inv_dashboard _ _ HI Hd) as (cur & Hs & Hcl & _).
      eapply (live_opened (dash_inst d) token (Dashboard.cleanup d env w)).
      * by apply close_dash_inst.
      * apply live_closed; [done..|congruence].
      * apply dashboard_rerender.
      * apply transports_rerender.
    + unfold live in Hl. rewrite Hd in Hl.
      eapply (live_opened (instances w) token); [| |done..]; [done|done].
  - destruct (dashboard w) as [d|] eqn:Hd; [|done]. cbv [and_then].
    destruct (Inv_dashboard _ _ HI Hd) as (cur & Hs & Hcl & _).
    set (w0 := set_feed None (set_dashboard None w)).
    assert (live (Dashboard.cleanup d env w0)) as Hl1.
    { apply live_liveW.
      replace (dash_wiring (Dashboard.cleanup d env w0)) with
        (@None (option nat * option nat)).
      - simpl. unfold Dashboard.cleanup. rewrite Hcl, transports_close.
        unfold live in Hl. rewrite Hd in Hl.
        destruct Hl as (olds & Ht & Holds & Hs').
        assert (cur = length olds) as -> by congruence.
        change (transports w0) with (transports w). rewrite Ht.
        by apply released_last.
      - unfold Dashboard.cleanup. rewrite Hcl. symmetry.
        apply (wiring_eq _ _ _ _ _ (close_wiring cur env w0)). }
    destruct (feed w) as [c|]; [|done].
    eapply live_dashboard_same; [..|exact Hl1].
    + apply dashboard_feed_cleanup.
    + apply transports_feed_cleanup.
  - destruct (dashboard w) as [d|] eqn:Hd; [|done].
    destruct (feed w) as [c|] eqn:Hc; [done|].
    unfold RealTimeUpdates.mount. cbv [and_then].
    eapply live_dashboard_same; [..|exact Hl].
    + by rewrite dashboard_feed_effect.
    + by rewrite transports_feed_effect.
  - destruct (feed w) as [c|] eqn:Hc; [|done]. cbv [and_then].
    eapply live_dashboard_same; [..|exact Hl].
    + by rewrite dashboard_feed_cleanup.
    + by rewrite transports_feed_cleanup.
  - unfold RealTimeUpdates.onClick_clear. destruct (feed w); [|done].
    eapply live_dashboard_same; [..|exact Hl].
    + apply Feed_set_dashboard.
    + apply transports_Feed_set.
  - cbv [and_then]. eapply live_wiring; [..|exact Hl].
    + rewrite emit_wiring. by apply update_flags_wiring.
    + unfold transports at 1. rewrite emit_sockets.
      by apply transports_update_same.
  - cbv [and_then]. eapply live_wiring; [..|exact Hl].
    + rewrite emit_wiring. by apply update_flags_wiring.
    + unfold transports at 1. rewrite emit_sockets.
      by apply transports_update_same.
  - eapply live_wiring; [..|exact Hl].
    + apply emit_wiring.
    + unfold transports. by rewrite emit_sockets.
Qed.

Lemma reachable_live_transport w : reachable w → live w.
Proof.
  intros [trace <-].
  enough (∀ w, Inv w → live w → live (run w trace)) as H
    by (apply H; [apply Inv_init|by constructor]).
  induction trace as [|e trace IH]; intros w HI Hl; simpl; [done|].
  apply IH; [by apply Inv_step|by apply live_step].
Qed.

(** ** Identifiers *)

Lemma no_dash_digits d : no_dash (NilEmpty.string_of_uint d).
Proof. induction d; simpl; split; done. Qed.

Lemma no_dash_numeral d : no_dash (NilZero.string_of_uint d).
Proof. destruct d; try apply no_dash_digits. simpl. done. Qed.

Lemma numeral_nonempty d : NilZero.string_of_uint d ≠ "".
Proof. by destruct d. Qed.

Lemma append_inj_l (s a b : string) : s +:+ a = s +:+ b → a = b.
Proof. induction s as [|c s IH]; simpl; [done|]. intros [= ?]. auto. Qed.

(** Two texts cut at their first ["-"] agree piece by piece. *)
Lemma split_at_dash (a b x y : string) :
  no_dash a → no_dash b →
  a +:+ "-" +:+ x = b +:+ "-" +:+ y → a = b ∧ x = y.
Proof.
  revert b. induction a as [|c a IH]; intros [|c' b] Ha Hb Heq;
    simpl in *; simplify_eq.
  - done.
  - by destruct Hb.
  - by destruct Ha.
  - destruct Ha as [_ Ha], Hb as [_ Hb].
    destruct (IH b Ha Hb) as [-> ->]; done.
Qed.

Lemma number_to_string_inj n1 n2 :
  number_to_string n1 = number_to_string n2 → n1 = n2.
Proof.
  unfold number_to_string. intros Heq. apply DecimalZ.to_int_inj.
  assert (∀ n, Z.to_int n ≠ Decimal.Pos Decimal.Nil
               ∧ Z.to_int n ≠ Decimal.Neg Decimal.Nil) as Hnil.
  { intros [|p|p]; simpl; split; try done;
      intros [= H]; by apply DecimalPos.Unsigned.to_uint_nonnil in H. }
  apply (f_equal NilZero.int_of_string) in Heq.
  rewrite !NilZero.isi in Heq by apply Hnil. congruence.
Qed.

Lemma number_then_dash n1 n2 x y :
  number_to_string n1 +:+ "-" +:+ x = number_to_string n2 +:+ "-" +:+ y →
  n1 = n2 ∧ x = y.
Proof.
  intros Heq.
  enough (number_to_string n1 = number_to_string n2 ∧ x = y) as [Hn ->]
    by (split; [by apply number_to_string_inj|done]).
  revert Heq. unfold number_to_string, NilZero.string_of_int.
  destruct (Z.to_int n1) as [d1|d1], (Z.to_int n2) as [d2|d2].
  - apply split_at_dash; apply no_dash_numeral.
  - pose proof (no_dash_numeral d1) as Hd. pose proof (numeral_nonempty d1).
    destruct (NilZero.string_of_uint d1) as [|c s]; [done|].
    simpl. destruct Hd as [Hc _]. by intros [= -> _].
  - pose proof (no_dash_numeral d2) as Hd. pose proof (numeral_nonempty d2).
    destruct (NilZero.string_of_uint d2) as [|c s]; [done|].
    simpl. destruct Hd as [Hc _]. by intros [= <- _].
  - simpl. intros [= Heq].
    destruct (split_at_dash _ _ _ _ (no_dash_numeral d1) (no_dash_numeral d2)
                Heq) as [-> ->].
    done.
Qed.

Lemma type_prefix_inj t1 t2 x y :
  type_name t1 +:+ "-" +:+ x = type_name t2 +:+ "-" +:+ y → t1 = t2 ∧ x = y.
Proof.
  destruct t1, t2; intros Heq;
    cbv [type_name String.append] in Heq; fold String.append in Heq;
    try (split; congruence); exfalso; congruence.
Qed.

(** ** Who hears a message *)

Lemma listeners_of_tables w s ev :
  listeners_of w s ev
  = match tables w !! s with
    | Some m => table_listeners ev m
    | None => []
    end.
Proof.
  unfold listeners_of, tables. rewrite list_lookup_fmap.
  by destruct (sockets w !! s).
Qed.

Lemma emit_listeners_of s ev arg env w :
  emit s ev arg env w
  = foldl (λ w' fn, call fn arg env w') w (listeners_of w s ev).
Proof. unfold emit, listeners_of. by destruct (sockets w !! s). Qed.

Lemma Inv_channel_listeners w s t :
  Inv w →
  listeners_of w s (type_name t)
  = match feed w with
    | Some c => if decide (feed_deps c = Some s)
                then [FeedChannel (feed_inst c) t] else []
    | None => []
    end.
Proof.
  intros HI. rewrite listeners_of_tables.
  destruct (tables w !! s) as [m|] eqn:Hm.
  - pose proof HI as [Hso How Hat _ _]. unfold feed_wiring in *.
    destruct (feed w) as [c|] eqn:Hc; simpl in *.
    + case_decide as Hs.
      * apply (Hat _ s); [by rewrite Hs|done].
      * apply elem_of_nil_inv. intros fn Hfn.
        specialize (Hso _ _ _ _ Hm Hfn).
        destruct (owner fn) as [j|] eqn:Hj.
        -- specialize (How _ _ _ _ _ Hm Hfn Hj). congruence.
        -- destruct fn, t; done.
    + apply (InvW_no_channel (tables w) (dash_wiring w) s m t); [|done].
      unfold Inv, feed_wiring in HI. by rewrite Hc in HI.
  - destruct (feed w) as [c|] eqn:Hc; [|done].
    case_decide as Hs; [|done].
    destruct (Inv_feed _ _ HI Hc) as (_ & s' & _ & _ & Hs' & Hlt).
    assert (s' = s) as -> by congruence.
    apply lookup_ge_None in Hm. unfold tables in Hm.
    rewrite length_fmap in Hm. lia.
Qed.

Lemma channel_or_not (fns : list Listener) :
  Forall (λ fn, ∀ i t, fn ≠ FeedChannel i t) fns
  ∨ ∃ i t, FeedChannel i t ∈ fns.
Proof.
  induction fns as [|fn fns [IH|(i & t & IH)]].
  - by left.
  - destruct fn as [j|j|j|j|j t]; try (left; by constructor).
    right. exists j, t. by left.
  - right. exists i, t. by right.
Qed.

Lemma calls_no_channel fns arg env : ∀ w,
  Forall (λ fn, ∀ i t, fn ≠ FeedChannel i t) fns →
  records (foldl (λ w' fn, call fn arg env w') w fns) = records w.
Proof.
  induction fns as [|fn fns IH]; intros w Hfns; simpl; [done|].
  apply Forall_cons in Hfns as [Hfn Hfns]. rewrite IH by done.
  destruct fn as [j|j|j|j|j t]; simpl.
  1,2: unfold Dashboard_setIsConnected; apply records_Dashboard_set.
  1,2: unfold Feed_setIsConnected; by apply records_Feed_set.
  by destruct (Hfn j t).
Qed.

Lemma Inv_channel_listener_attached w s ev i t :
  Inv w → FeedChannel i t ∈ listeners_of w s ev →
  attached_to w s ∧ ev = type_name t.
Proof.
  intros HI Hfn. rewrite listeners_of_tables in Hfn.
  destruct (tables w !! s) as [m|] eqn:Hm; [|by apply elem_of_nil in Hfn].
  pose proof HI as [Hso How _ _ _].
  specialize (Hso _ _ _ _ Hm Hfn). specialize (How _ _ _ _ i Hm Hfn eq_refl).
  apply feed_wiring_Some in How as (c & Hc & _ & Hs).
  split; [by exists c|done].
Qed.

(** ** Connection notifications and records *)

Lemma signal_listeners_of v w s :
  Inv w → Forall (signal_listener v) (listeners_of w s (signal_name v)).
Proof.
  intros [Hso _ _ _ _]. apply Forall_forall. intros fn Hfn.
  apply sorted_signal. rewrite listeners_of_tables in Hfn.
  destruct (tables w !! s) as [m|] eqn:Hm; [|by apply elem_of_nil in Hfn].
  eauto.
Qed.

Lemma emit_signal_records v s arg env w :
  Inv w → records (emit s (signal_name v) arg env w) = records w.
Proof.
  intros HI. rewrite emit_listeners_of.
  by apply (calls_signal v), signal_listeners_of.
Qed.

Lemma close_records s env w : Inv w → records (close s env w) = records w.
Proof.
  intros HI. unfold close. destruct (sockets w !! s) as [sock|]; [|done].
  destruct (connected sock); [|done]. cbv [and_then].
  rewrite (emit_signal_records false); [done|].
  eapply Inv_wiring; [|exact HI]. by apply update_flags_wiring.
Qed.

Lemma records_rerender o w :
  records (RealTimeUpdates.rerender o w) = records w.
Proof.
  unfold RealTimeUpdates.rerender. destruct (feed w) as [c|] eqn:Hc; [|done].
  case_decide; [done|]. cbv [and_then].
  by apply (closed_feed_effect (λ l, l = records w)),
           (closed_feed_cleanup (λ l, l = records w)).
Qed.

Lemma records_render token env w :
  Inv w → records (step w (Render token, env)) = records w.
Proof.
  intros HI. unfold step; simpl. destruct (dashboard w) as [d|] eqn:Hd.
  - case_decide; [done|]. cbv [and_then]. rewrite records_rerender.
    apply (closed_dashboard_effect (λ l, l = records w)).
    unfold Dashboard.cleanup. destruct (dash_cleanup d); [|done].
    by apply close_records.
  - unfold Dashboard.mount. cbv [and_then].
    by apply (closed_dashboard_effect (λ l, l = records w)).
Qed.

(** ** Steps that leave the wiring alone *)

Lemma transport_step_wiring w e :
  from_transport e → wiring (step w e) = wiring w.
Proof.
  destruct e as [[token| | | | |s|s|s ev arg] env];
    unfold from_transport; simpl; try done; intros _; unfold step; simpl;
    cbv [and_then]; rewrite emit_wiring; try done;
    by apply update_flags_wiring.
Qed.

Lemma transport_run_wiring trace : ∀ w,
  Forall from_transport trace → wiring (run w trace) = wiring w.
Proof.
  induction trace as [|e trace IH]; intros w Htr; simpl; [done|].
  apply Forall_cons in Htr as [He Htr].
  by rewrite IH, transport_step_wiring.
Qed.

Lemma reachable_step w e : reachable w → reachable (step w e).
Proof.
  intros [trace <-]. exists (trace ++ [e]). unfold run. by rewrite foldl_app.
Qed.

Lemma reachable_run trace : ∀ w, reachable w → reachable (run w trace).
Proof.
  induction trace as [|e trace IH]; intros w Hr; simpl; [done|].
  by apply IH, reachable_step.
Qed.

(** ** The socket handed down after a render *)

Lemma socket_prop_render_changed w d token env :
  dashboard w = Some d → dash_deps d ≠ token →
  socket_prop (step w (Render token, env)) = Some (length (sockets w)).
Proof.
  intros Hd Hne. unfold step; simpl. rewrite Hd, decide_False by done.
  cbv [and_then]. rewrite socket_prop_rerender.
  rewrite socket_prop_dashboard_effect by by apply close_dash_inst.
  f_equal. unfold Dashboard.cleanup.
  destruct (dash_cleanup d) as [cur|]; [|done].
  rewrite <- !(length_fmap (λ k, (auth_token k, closed k))).
  fold (transports (close cur env w)). fold (transports w).
  by rewrite transports_close, length_alter.
Qed.

Lemma feed_inst_Feed_set i f w :
  (∀ c, feed_inst (f c) = feed_inst c) →
  feed_inst <$> feed (Feed_set i f w) = feed_inst <$> feed w.
Proof.
  intros Hf. unfold Feed_set. destruct w as [S n D [c|]]; simpl; [|done].
  case_decide; simpl; [|done]. by rewrite Hf.
Qed.

Lemma feed_inst_feed_effect i o w :
  feed_inst <$> feed (RealTimeUpdates.effect i o w) = feed_inst <$> feed w.
Proof.
  unfold RealTimeUpdates.effect, RealTimeUpdates.effect_ran,
    Feed_setIsConnected.
  destruct o as [s|]; cbv [and_then]; rewrite feed_inst_Feed_set by done;
    [|done].
  unfold on; simpl. by rewrite feed_inst_Feed_set.
Qed.

Lemma feed_inst_rerender o w :
  feed_inst <$> feed (RealTimeUpdates.rerender o w) = feed_inst <$> feed w.
Proof.
  unfold RealTimeUpdates.rerender. destruct (feed w) as [c|] eqn:Hc; [|by rewrite Hc].
  case_decide; [by rewrite Hc|]. cbv [and_then].
  rewrite feed_inst_feed_effect. unfold RealTimeUpdates.cleanup.
  destruct (feed_deps c); by rewrite <- Hc.
Qed.

Lemma feed_inst_render token env w :
  feed_inst <$> feed (step w (Render token, env)) = feed_inst <$> feed w.
Proof.
  unfold step; simpl. destruct (dashboard w) as [d|] eqn:Hd.
  - case_decide; [done|]. cbv [and_then]. rewrite feed_inst_rerender.
    assert (∀ w1, feed_wiring w1 = feed_wiring w →
                  feed_inst <$> feed w1 = feed_inst <$> feed w) as Hfw.
    { intros w1. unfold feed_wiring.
      destruct (feed w1), (feed w); simpl; congruence. }
    apply Hfw.
    rewrite (proj1 (proj2 (proj2 (wiring_eq _ _ _ _ _
               (Dashboard_effect_wiring _ token _
                  (close_dash_inst d env w Hd)))))).
    unfold Dashboard.cleanup. destruct (dash_cleanup d) as [cur|]; [|done].
    apply (wiring_eq _ _ _ _ _ (close_wiring cur env w)).
  - unfold Dashboard.mount. cbv [and_then].
    unfold Dashboard.effect, Dashboard.effect_ran, Dashboard_setSocket.
    cbv [and_then]. by rewrite !Dashboard_set_feed.
Qed.

(** ** Leaving and re-opening the Real-time tab *)

Lemma hide_wiring w c s env :
  feed w = Some c → feed_deps c = Some s →
  wiring (step w (HideRealtimeTab, env))
  = (alter detach s (tables w), dash_wiring w, None, dash_session w).
Proof.
  intros Hc Hs. unfold step; simpl. rewrite Hc. cbv [and_then].
  by rewrite (feed_cleanup_wiring c s).
Qed.

Lemma listeners_of_hidden w c s env ev :
  feed w = Some c → feed_deps c = Some s → ev ∈ feed_events →
  listeners_of (step w (HideRealtimeTab, env)) s ev = [].
Proof.
  intros Hc Hs Hev. rewrite listeners_of_tables.
  rewrite (proj1 (wiring_eq _ _ _ _ _ (hide_wiring w c s env Hc Hs))).
  rewrite list_lookup_alter_eq. destruct (tables w !! s); simpl; [|done].
  rewrite listeners_detach. by rewrite decide_True.
Qed.

Lemma dash_state_set_connected s v w :
  dash_state (update_socket s (Socket_set_connected v) w) = dash_state w.
Proof. done. Qed.

Lemma show_feed w d s env :
  dashboard w = Some d → dash_socket d = Some s → feed w = None →
  records (step w (ShowRealtimeTab, env)) = []
  ∧ attached_to (step w (ShowRealtimeTab, env)) s.
Proof.
  intros Hd Hs Hc. unfold step; simpl. rewrite Hd, Hc, Hs.
  unfold RealTimeUpdates.mount. cbv [and_then]. split.
  - by apply (closed_feed_effect (λ l, l = [])).
  - match goal with |- attached_to (RealTimeUpdates.effect ?i _ ?w0) _ =>
      pose proof (feed_effect_wiring i s w0 eq_refl)
        as (_ & _ & Hfw & _)%wiring_eq end.
    apply feed_wiring_Some in Hfw as (c' & Hc' & _ & Hs').
    by exists c'.
Qed.

(** ** How the list of transports moves *)

Lemma transports_step w e :
  ∃ T, (T = transports w ∨ ∃ s, T = alter released s (transports w))
       ∧ transports (step w e) = T ++ ((λ t, (t, false)) <$> opened_by w e).
Proof.
  destruct e as [[token| | | | |s|s|s ev arg] env];
    unfold step, opened_by; simpl.
  - destruct (dashboard w) as [d|] eqn:Hd.
    + case_decide.
      * exists (transports w). split; [by left|]. by rewrite fmap_nil, app_nil_r.
      * cbv [and_then].
        rewrite transports_rerender, transports_dashboard_effect.
        unfold Dashboard.cleanup. destruct (dash_cleanup d) as [cur|].
        -- rewrite transports_close. eexists. split; [right; eauto|done].
        -- eexists. split; [by left|done].
    + unfold Dashboard.mount. cbv [and_then].
      rewrite transports_dashboard_effect.
      eexists. split; [by left|done].
  - setoid_rewrite app_nil_r. destruct (dashboard w) as [d|]; [|eauto].
    cbv [and_then].
    assert (∃ T, (T = transports w ∨ ∃ s, T = alter released s (transports w))
                 ∧ transports (Dashboard.cleanup d env
                                 (set_feed None (set_dashboard None w))) = T)
      as (T & HT & Hcl).
    { unfold Dashboard.cleanup. destruct (dash_cleanup d) as [cur|].
      - rewrite transports_close. eauto.
      - eauto. }
    exists T. split; [done|].
    destruct (feed w); [by rewrite transports_feed_cleanup|done].
  - setoid_rewrite app_nil_r. exists (transports w). split; [by left|].
    destruct (dashboard w); [|done]. destruct (feed w); [done|].
    unfold RealTimeUpdates.mount. cbv [and_then].
    by rewrite transports_feed_effect.
  - setoid_rewrite app_nil_r. exists (transports w). split; [by left|].
    destruct (feed w); [|done]. cbv [and_then].
    by rewrite transports_feed_cleanup.
  - setoid_rewrite app_nil_r. exists (transports w). split; [by left|].
    unfold RealTimeUpdates.onClick_clear. destruct (feed w); [|done].
    apply transports_Feed_set.
  - setoid_rewrite app_nil_r. exists (transports w). split; [by left|].
    cbv [and_then]. unfold transports at 1. rewrite emit_sockets.
    by apply transports_update_same.
  - setoid_rewrite app_nil_r. exists (transports w). split; [by left|].
    cbv [and_then]. unfold transports at 1. rewrite emit_sockets.
    by apply transports_update_same.
  - setoid_rewrite app_nil_r. exists (transports w). split; [by left|].
    unfold transports. by rewrite emit_sockets.
Qed.

Lemma released_credentials s (T : list (option string * bool)) :
  (alter released s T).*1 = T.*1.
Proof.
  rewrite (list_fmap_alter fst released (λ p, p)) by by apply Forall_true.
  by apply list_alter_id.
Qed.

(** ** Ids of the retained records *)

Lemma id_of_key_inj k1 k2 : id_of_key k1 = id_of_key k2 → k1 = k2.
Proof.
  destruct k1 as [[t1 n1] r1], k2 as [[t2 n2] r2]. unfold id_of_key; simpl.
  intros Heq. apply type_prefix_inj in Heq as [-> Heq].
  by apply number_then_dash in Heq as [-> ->].
Qed.

Lemma id_record_of m : id (record_of m) = id_of_key (id_key m).
Proof. done. Qed.

Lemma burst_keys n : NoDup (id_key <$> burst n).
Proof.
  unfold burst. rewrite <- list_fmap_compose.
  apply NoDup_fmap_2; [|apply NoDup_seq].
  intros i j [= Hij]. lia.
Qed.

(** ** The feed's connection badge *)

Lemma socket_connected_sockets s w w' :
  connected <$> sockets w' = connected <$> sockets w →
  RealTimeUpdates.socket_connected s w' = RealTimeUpdates.socket_connected s w.
Proof.
  intros Hfl. unfold RealTimeUpdates.socket_connected.
  apply (f_equal (λ l, l !! s)) in Hfl. rewrite !list_lookup_fmap in Hfl.
  destruct (sockets w' !! s), (sockets w !! s); simplify_eq/=; done.
Qed.

Lemma flags_update_same (s : nat) (f : Socket → Socket) (l : list Socket) :
  (∀ k, connected (f k) = connected k) →
  connected <$> alter f s l = connected <$> l.
Proof.
  intros Hf. rewrite (list_fmap_alter connected f (λ b, b))
    by by apply Forall_true.
  by apply list_alter_id.
Qed.

Lemma feed_effect_badge i k w :
  feed_inst <$> feed w = Some i →
  feed_state (RealTimeUpdates.effect i (Some k) w)
  = RealTimeUpdates.socket_connected k w
  ∧ connected <$> sockets (RealTimeUpdates.effect i (Some k) w)
    = connected <$> sockets w.
Proof.
  destruct w as [S n D [c|]]; intros [= <-].
  unfold RealTimeUpdates.effect, and_then, on, update_socket, set_sockets,
    Feed_setIsConnected, RealTimeUpdates.effect_ran, Feed_set, feed_state;
    simpl.
  repeat (rewrite decide_True by done; simpl).
  split; [done|]. by rewrite !flags_update_same.
Qed.

Lemma feed_effect_mirrors i k w :
  feed_inst <$> feed w = Some i → k < length (sockets w) →
  mirrors (RealTimeUpdates.effect i (Some k) w).
Proof.
  intros Hi Hk j s Hfw.
  pose proof (feed_effect_wiring i k w Hi) as (Ht & _ & Hf & _)%wiring_eq.
  rewrite Hf in Hfw. injection Hfw as <- <-.
  destruct (feed_effect_badge i k w Hi) as [Hst Hfl].
  destruct (lookup_lt_is_Some_2 (tables w) k) as [m Hm].
  { unfold tables. by rewrite length_fmap. }
  split_and!.
  - rewrite listeners_of_tables, Ht, list_lookup_alter_eq, Hm. simpl.
    rewrite listeners_attach. apply elem_of_app. right.
    unfold feed_listeners. simpl. by constructor.
  - rewrite listeners_of_tables, Ht, list_lookup_alter_eq, Hm. simpl.
    rewrite listeners_attach. apply elem_of_app. right.
    unfold feed_listeners. simpl. by constructor.
  - rewrite Hst. symmetry. by apply socket_connected_sockets.
Qed.

Lemma mirrors_unmounted w : feed_wiring w = None → mirrors w.
Proof. intros Hf i s. by rewrite Hf. Qed.

Lemma call_feed_state_other fn arg env w :
  (∀ i, fn ≠ FeedConnect i ∧ fn ≠ FeedDisconnect i) →
  feed_state (call fn arg env w) = feed_state w.
Proof.
  intros Hfn. unfold feed_state.
  destruct fn as [j|j|j|j|j t]; simpl;
    try (by destruct (Hfn j) as [? ?]).
  1,2: unfold Dashboard_setIsConnected; by rewrite Dashboard_set_feed.
  unfold Feed_setUpdates, Feed_set.
  destruct w as [S n D [c|]]; simpl; [case_decide|]; done.
Qed.

Lemma calls_feed_state_other fns arg env : ∀ w,
  Forall (λ fn, ∀ i, fn ≠ FeedConnect i ∧ fn ≠ FeedDisconnect i) fns →
  feed_state (foldl (λ w' fn, call fn arg env w') w fns) = feed_state w.
Proof.
  induction fns as [|fn fns IH]; intros w Hfns; simpl; [done|].
  apply Forall_cons in Hfns as [Hfn Hfns].
  by rewrite IH, call_feed_state_other.
Qed.

Lemma calls_signal_sets v i fns arg env : ∀ w,
  Forall (signal_listener v) fns → feed_signal v i ∈ fns →
  feed_inst <$> feed w = Some i →
  feed_state (foldl (λ w' fn, call fn arg env w') w fns) = v.
Proof.
  induction fns as [|fn fns IH]; intros w Hfns Hin Hi; simpl.
  { by apply elem_of_nil in Hin. }
  apply Forall_cons in Hfns as [Hfn Hfns].
  apply elem_of_cons in Hin as [<-|Hin].
  - apply (calls_signal v fns arg env); [done|].
    unfold feed_state, feed_signal.
    destruct w as [S n D [c|]]; simplify_eq/=.
    destruct v; simpl; unfold Feed_setIsConnected, Feed_set; simpl;
      by rewrite decide_True.
  - apply IH; [done..|].
    pose proof (call_wiring fn arg env w) as (_ & _ & Hf & _)%wiring_eq.
    unfold feed_wiring in Hf.
    destruct (feed (call fn arg env w)), (feed w); simpl in *; congruence.
Qed.

Lemma mirrors_same w w' :
  wiring w' = wiring w →
  feed_state w' = feed_state w →
  connected <$> sockets w' = connected <$> sockets w →
  mirrors w → mirrors w'.
Proof.
  intros (Ht & _ & Hf & _)%wiring_eq Hst Hfl Hm i s Hfw.
  rewrite Hf in Hfw. destruct (Hm i s Hfw) as (Hc & Hd & Hb).
  rewrite !listeners_of_tables, Ht, <- !listeners_of_tables.
  by rewrite Hst, (socket_connected_sockets s w w').
Qed.

Lemma feed_wiring_inst w i o :
  feed_wiring w = Some (i, o) → feed_inst <$> feed w = Some i.
Proof. intros (c & -> & <- & _)%feed_wiring_Some. done. Qed.

Lemma feed_cleanup_feed c w : feed (RealTimeUpdates.cleanup c w) = feed w.
Proof. unfold RealTimeUpdates.cleanup. by destruct (feed_deps c). Qed.

Lemma feed_cleanup_length c w :
  length (sockets (RealTimeUpdates.cleanup c w)) = length (sockets w).
Proof.
  unfold RealTimeUpdates.cleanup.
  destruct (feed_deps c) as [s|]; [|done].
  unfold and_then, off, update_socket, set_sockets; simpl.
  by rewrite !length_alter.
Qed.

(** A re-render with a socket the feed is not attached to re-attaches it,
    and the badge starts from that socket's flag. *)
Lemma rerender_mirrors k w :
  (∀ c, feed w = Some c → feed_deps c ≠ Some k) →
  k < length (sockets w) →
  mirrors (RealTimeUpdates.rerender (Some k) w).
Proof.
  intros Hne Hk. unfold RealTimeUpdates.rerender.
  destruct (feed w) as [c|] eqn:Hc.
  - rewrite decide_False by by apply Hne. cbv [and_then].
    apply feed_effect_mirrors.
    + by rewrite feed_cleanup_feed, Hc.
    + by rewrite feed_cleanup_length.
  - apply mirrors_unmounted. by apply feed_wiring_None.
Qed.

Lemma render_mirrors w token env :
  Inv w → mirrors w → mirrors (step w (Render token, env)).
Proof.
  intros HI Hm. unfold step; simpl.
  destruct (dashboard w) as [d|] eqn:Hd.
  - case_decide as Htok; [done|]. cbv [and_then].
    pose proof (close_dash_inst d env w Hd) as Hi1.
    assert (wiring (Dashboard.cleanup d env w) = wiring w) as Hw1.
    { unfold Dashboard.cleanup. destruct (dash_cleanup d); [|done].
      apply close_wiring. }
    apply wiring_eq in Hw1 as (Ht1 & _ & Hf1 & _).
    pose proof (Dashboard_effect_wiring _ token _ Hi1)
      as (Ht2 & _ & Hf2 & _)%wiring_eq.
    rewrite (socket_prop_dashboard_effect _ token _ Hi1).
    assert (length (sockets (Dashboard.cleanup d env w)) = length (sockets w))
      as Hlen1.
    { apply (f_equal length) in Ht1. unfold tables in Ht1.
      by rewrite !length_fmap in Ht1. }
    apply rerender_mirrors.
    + intros c Hc.
      assert (feed_wiring w = Some (feed_inst c, feed_deps c)) as Hfw.
      { rewrite <- Hf1, <- Hf2. apply feed_wiring_Some. by exists c. }
      apply feed_wiring_Some in Hfw as (c0 & Hc0 & _ & Hs0).
      destruct (Inv_feed _ _ HI Hc0) as (_ & s & _ & _ & Hs & Hlt).
      rewrite <- Hs0, Hs, Hlen1. intros [= ->]. lia.
    + apply (f_equal length) in Ht2. unfold tables in Ht2.
      rewrite length_app, !length_fmap in Ht2. simpl in Ht2. lia.
  - apply mirrors_unmounted.
    rewrite (proj1 (proj2 (proj2 (wiring_eq _ _ _ _ _
               (Dashboard_mount_wiring token w Hd))))).
    apply feed_wiring_None. destruct (feed w) as [c|] eqn:Hc; [|done].
    destruct (Inv_feed _ _ HI Hc) as (? & ? & ? & _). congruence.
Qed.

Lemma unmount_feed w env : Inv w → feed (step w (Unmount, env)) = None.
Proof.
  intros HI. unfold step; simpl. destruct (dashboard w) as [d|] eqn:Hd.
  - cbv [and_then].
    assert (feed (Dashboard.cleanup d env (set_feed None (set_dashboard None w)))
            = None) as Hf.
    { apply feed_wiring_None. unfold Dashboard.cleanup.
      destruct (dash_cleanup d) as [s|]; [|done].
      by rewrite (proj1 (proj2 (proj2 (wiring_eq _ _ _ _ _
                    (close_wiring s env _))))). }
    destruct (feed w) as [c|]; [|done]. by rewrite feed_cleanup_feed.
  - destruct (feed w) as [c|] eqn:Hc; [|done].
    destruct (Inv_feed _ _ HI Hc) as (? & ? & ? & _). congruence.
Qed.

Lemma show_mirrors w env :
  Inv w → mirrors w → mirrors (step w (ShowRealtimeTab, env)).
Proof.
  intros HI Hm. unfold step; simpl.
  destruct (dashboard w) as [d|] eqn:Hd; [|done].
  destruct (feed w) as [c|] eqn:Hc; [done|].
  destruct (Inv_dashboard _ _ HI Hd) as (s & Hs & _ & Hlt).
  rewrite Hs. unfold RealTimeUpdates.mount. cbv [and_then].
  by apply feed_effect_mirrors.
Qed.

Lemma hide_mirrors w env : Inv w → mirrors (step w (HideRealtimeTab, env)).
Proof.
  intros HI. destruct (feed w) as [c|] eqn:Hc.
  - destruct (Inv_feed _ _ HI Hc) as (_ & s & _ & _ & Hs & _).
    apply mirrors_unmounted.
    by rewrite (proj1 (proj2 (proj2 (wiring_eq _ _ _ _ _
                  (hide_wiring w c s env Hc Hs))))).
  - unfold step; simpl. rewrite Hc. apply mirrors_unmounted.
    by apply feed_wiring_None.
Qed.

Lemma clear_mirrors w env : mirrors w → mirrors (step w (ClickClearAll, env)).
Proof.
  intros Hm. unfold step; simpl. unfold RealTimeUpdates.onClick_clear.
  destruct (feed w) as [c|] eqn:Hc; [|done].
  eapply mirrors_same; [apply Feed_setUpdates_wiring|..|done].
  - unfold feed_state, Feed_setUpdates, Feed_set.
    destruct w as [S n D [c0|]]; simpl; [case_decide|]; done.
  - unfold Feed_setUpdates, Feed_set.
    destruct w as [S n D [c0|]]; simpl; [case_decide|]; done.
Qed.

Lemma listeners_of_some w s ev fn :
  fn ∈ listeners_of w s ev → is_Some (sockets w !! s).
Proof.
  unfold listeners_of. destruct (sockets w !! s); [eauto|].
  by intros ?%elem_of_nil.
Qed.

Lemma listeners_of_wiring w w' s ev :
  wiring w' = wiring w → listeners_of w' s ev = listeners_of w s ev.
Proof.
  intros (Ht & _)%wiring_eq. by rewrite !listeners_of_tables, Ht.
Qed.

(** A listener on a socket other than the feed's does not write the feed. *)
Lemma Inv_other_socket w i s s0 ev :
  Inv w → feed_wiring w = Some (i, Some s) → s0 ≠ s →
  Forall (λ fn, ∀ j, fn ≠ FeedConnect j ∧ fn ≠ FeedDisconnect j)
         (listeners_of w s0 ev).
Proof.
  intros [_ How _ _ _] Hfw Hne. apply Forall_forall. intros fn Hfn j.
  rewrite listeners_of_tables in Hfn.
  destruct (tables w !! s0) as [m|] eqn:Hm; [|by apply elem_of_nil in Hfn].
  split; intros ->.
  - specialize (How s0 m ev _ j Hm Hfn eq_refl). congruence.
  - specialize (How s0 m ev _ j Hm Hfn eq_refl). congruence.
Qed.

(** A message under an ordinary name reaches no connect or disconnect
    listener. *)
Lemma Inv_other_name w s0 ev :
  Inv w → ev ≠ "connect" → ev ≠ "disconnect" →
  Forall (λ fn, ∀ j, fn ≠ FeedConnect j ∧ fn ≠ FeedDisconnect j)
         (listeners_of w s0 ev).
Proof.
  intros [Hso _ _ _ _] Hc Hd. apply Forall_forall. intros fn Hfn j.
  rewrite listeners_of_tables in Hfn.
  destruct (tables w !! s0) as [m|] eqn:Hm; [|by apply elem_of_nil in Hfn].
  split; intros ->; specialize (Hso s0 m ev _ Hm Hfn); simpl in Hso; done.
Qed.

Lemma message_mirrors w s0 ev arg env :
  Inv w → ev ≠ "connect" → ev ≠ "disconnect" →
  mirrors w → mirrors (step w (Message s0 ev arg, env)).
Proof.
  intros HI Hc Hd Hm. unfold step; simpl.
  eapply mirrors_same; [apply emit_wiring| |by rewrite emit_sockets|done].
  rewrite emit_listeners_of.
  by apply calls_feed_state_other, Inv_other_name.
Qed.

(** The transport reports [v] on socket [s0]: the flag is set, then the
    listeners of the matching event run. *)
Lemma signal_mirrors v s0 arg env w :
  Inv w → mirrors w →
  mirrors (emit s0 (signal_name v) arg env
             (update_socket s0 (Socket_set_connected v) w)).
Proof.
  intros HI Hm.
  set (w1 := update_socket s0 (Socket_set_connected v) w).
  assert (wiring w1 = wiring w) as Hw1 by by apply update_flags_wiring.
  assert (Inv w1) as HI1 by by eapply Inv_wiring.
  intros i s Hfw.
  assert (feed_wiring w = Some (i, Some s)) as Hfw0.
  { rewrite <- Hfw. symmetry.
    transitivity (feed_wiring w1).
    - apply (wiring_eq _ _ _ _ _ (emit_wiring s0 (signal_name v) arg env w1)).
    - apply (wiring_eq _ _ _ _ _ Hw1). }
  destruct (Hm i s Hfw0) as (Hc & Hd & Hb).
  assert (∀ ev, listeners_of (emit s0 (signal_name v) arg env w1) s ev
                = listeners_of w s ev) as Hl.
  { intros ev. rewrite (listeners_of_wiring w1) by apply emit_wiring.
    by apply listeners_of_wiring. }
  rewrite !Hl. split_and!; [done..|].
  destruct (listeners_of_some _ _ _ _ Hc) as [sock Hsock].
  destruct (decide (s0 = s)) as [->|Hne].
  - transitivity v.
    + rewrite emit_listeners_of. apply (calls_signal_sets v i).
      * by apply signal_listeners_of.
      * rewrite (listeners_of_wiring w) by done.
        by destruct v.
      * apply (feed_wiring_inst _ _ (Some s)).
        by rewrite (proj1 (proj2 (proj2 (wiring_eq _ _ _ _ _ Hw1)))).
    + unfold RealTimeUpdates.socket_connected. rewrite emit_sockets.
      unfold w1, update_socket, set_sockets; simpl.
      by rewrite list_lookup_alter_eq, Hsock.
  - transitivity (feed_state w).
    + rewrite emit_listeners_of.
      rewrite calls_feed_state_other.
      * unfold feed_state, w1, update_socket, set_sockets. by destruct w.
      * apply (Inv_other_socket w1 i s); [done| |done].
        by rewrite (proj1 (proj2 (proj2 (wiring_eq _ _ _ _ _ Hw1)))).
    + rewrite Hb. unfold RealTimeUpdates.socket_connected.
      rewrite emit_sockets. unfold w1, update_socket, set_sockets; simpl.
      by rewrite list_lookup_alter_ne.
Qed.

Lemma mirrors_step w e : Inv w → proper e → mirrors w → mirrors (step w e).
Proof.
  intros HI He Hm. destruct e as [[token| | | | |s|s|s ev arg] env].
  - by apply render_mirrors.
  - apply mirrors_unmounted, feed_wiring_None. by apply unmount_feed.
  - by apply show_mirrors.
  - by apply hide_mirrors.
  - by apply clear_mirrors.
  - by apply (signal_mirrors true).
  - by apply (signal_mirrors false).
  - destruct He as [Hc Hd]. by apply message_mirrors.
Qed.

Lemma mirrors_run trace : ∀ w,
  Inv w → Forall proper trace → mirrors w → mirrors (run w trace).
Proof.
  induction trace as [|e trace IH]; intros w HI Htr Hm; simpl; [done|].
  apply Forall_cons in Htr as [He Htr].
  apply IH; [by apply Inv_step|done|by apply mirrors_step].
Qed.

(** ** What the feed shows *)

Lemma no_channel_cases ty :
  no_channel ty ↔
  ty ≠ "disaster-update" ∧ ty ≠ "resource-update"
  ∧ ty ≠ "report-update" ∧ ty ≠ "social_media_updated".
Proof.
  split.
  - intros H. split_and!.
    + apply (H disaster_update).
    + apply (H resource_update).
    + apply (H report_update).
    + apply (H social_media_updated).
  - intros (? & ? & ? & ?) []; done.
Qed.

(** ** The page and the Dashboard below it *)

Lemma session_render w token env :
  ∃ i, dash_session (step w (Render token, env)) = Some (i, token).
Proof.
  unfold step; simpl. destruct (dashboard w) as [d|] eqn:Hd.
  - case_decide as Htok.
    + exists (dash_inst d). unfold dash_session. rewrite Hd. simpl.
      by rewrite Htok.
    + cbv [and_then]. exists (dash_inst d).
      unfold dash_session at 1. rewrite dashboard_rerender.
      apply (wiring_eq _ _ _ _ _
               (Dashboard_effect_wiring _ token _
                  (close_dash_inst d env w Hd))).
  - exists (instances w).
    apply (wiring_eq _ _ _ _ _ (Dashboard_mount_wiring token w Hd)).
Qed.

Lemma dashboard_unmount w env : dashboard (step w (Unmount, env)) = None.
Proof.
  unfold step; simpl. destruct (dashboard w) as [d|] eqn:Hd; [|done].
  cbv [and_then].
  assert (dashboard (Dashboard.cleanup d env
                       (set_feed None (set_dashboard None w))) = None) as H.
  { unfold Dashboard.cleanup. destruct (dash_cleanup d) as [s|]; [|done].
    pose proof (close_wiring s env (set_feed None (set_dashboard None w)))
      as (_ & _ & _ & Hs)%wiring_eq.
    unfold dash_session in Hs. simpl in Hs.
    by destruct (dashboard (close s env _)). }
  destruct (feed w) as [c|]; [|done]. by rewrite dashboard_feed_cleanup.
Qed.

Lemma session_below w e env :
  (∀ token, e ≠ Render token) → e ≠ Unmount →
  dash_session (step w (e, env)) = dash_session w.
Proof.
  intros Hr Hu. destruct e as [token| | | | |s|s|s ev arg]; try done.
  - by destruct (Hr token).
  - unfold step; simpl. destruct (dashboard w) as [d|] eqn:Hd; [|done].
    destruct (feed w) as [c|]; [done|].
    unfold RealTimeUpdates.mount, dash_session. cbv [and_then].
    by rewrite dashboard_feed_effect.
  - unfold step; simpl. destruct (feed w) as [c|]; [|done].
    cbv [and_then]. unfold dash_session.
    by rewrite dashboard_feed_cleanup.
  - unfold step; simpl. unfold RealTimeUpdates.onClick_clear.
    destruct (feed w) as [c|]; [|done].
    apply (wiring_eq _ _ _ _ _ (Feed_setUpdates_wiring _ _ w)).
  - apply (wiring_eq _ _ _ _ _ (transport_step_wiring w (Connect s, env) I)).
  - apply (wiring_eq _ _ _ _ _
             (transport_step_wiring w (Disconnect s, env) I)).
  - apply (wiring_eq _ _ _ _ _
             (transport_step_wiring w (Message s ev arg, env) I)).
Qed.

Lemma credentials_step w e :
  (transports (step w e)).*1 = (transports w).*1 ++ opened_by w e.
Proof.
  destruct (transports_step w e) as (T & HT & ->).
  rewrite fmap_app, <- list_fmap_compose.
  rewrite (list_fmap_id (opened_by w e)) at 1.
  f_equal. destruct HT as [->|[s ->]]; [done|apply released_credentials].
Qed.

Lemma with_token_step w e :
  with_token w → Forall is_Some (opened_by w e) → with_token (step w e).
Proof.
  unfold with_token. rewrite credentials_step. intros. by apply Forall_app.
Qed.

Lemma opened_by_render w t env :
  Forall is_Some (opened_by w (Render (Some t), env)).
Proof.
  unfold opened_by; simpl.
  destruct (dashboard w); [case_decide|]; repeat constructor; eauto.
Qed.

Lemma opened_by_other w e env :
  (∀ token, e ≠ Render token) → opened_by w (e, env) = [].
Proof. intros Hr. destruct e; try done. by destruct (Hr token). Qed.

(** Without a Dashboard no feed is mounted and no transport is open. *)
Lemma reachable_no_dashboard w :
  reachable w → dashboard w = None →
  feed w = None ∧ Forall (λ p, p.2 = true) (transports w).
Proof.
  intros Hr Hd. split.
  - destruct (feed w) as [c|] eqn:Hc; [|done].
    destruct (Inv_feed _ _ (reachable_Inv _ Hr) Hc) as (? & ? & ? & _).
    congruence.
  - pose proof (reachable_live_transport _ Hr) as Hl. unfold live in Hl.
    by rewrite Hd in Hl.
Qed.

(** One render of the page brings the tree in step with the page. *)
Lemma render_in_step env a :
  reachable (Index.tree a) → in_step (Index.render env a).
Proof.
  intros Hr. unfold in_step, Index.render; simpl.
  destruct (Index.isAuthenticated a).
  - apply session_render.
  - assert (dashboard (step (Index.tree a) (Unmount, env)) = None) as Hd
      by apply dashboard_unmount.
    split; [done|].
    by apply reachable_no_dashboard; [apply reachable_step|].
Qed.

Lemma render_reachable env a :
  reachable (Index.tree a) → reachable (Index.tree (Index.render env a)).
Proof. intros Hr. by apply reachable_step. Qed.

Lemma render_with_token env a :
  settled a → with_token (Index.tree a) →
  with_token (Index.tree (Index.render env a)).
Proof.
  unfold settled, Index.render; simpl. intros Hs Hw.
  apply with_token_step; [done|].
  destruct (Index.isAuthenticated a).
  - destruct Hs as (t & -> & _). apply opened_by_render.
  - by rewrite opened_by_other.
Qed.

Lemma settled_render env a : settled a → settled (Index.render env a).
Proof. done. Qed.

Lemma settled_effect a :
  Index.isAuthenticated a = false → Index.token a = None →
  settled (Index.effect a).
Proof.
  intros Hauth Htok. unfold Index.effect, settled.
  destruct (Index.truthy (Index.localStorage a !! "disaster_token")) eqn:Ht.
  - simpl. destruct (Index.localStorage a !! "disaster_token") as [t|];
      [by exists t|done].
  - by rewrite Hauth.
Qed.

Lemma settled_login t a : settled (Index.handleLogin t a).
Proof.
  unfold settled, Index.handleLogin; simpl. exists t.
  by rewrite lookup_insert_eq.
Qed.

Lemma settled_logout a : settled (Index.handleLogout a).
Proof.
  unfold settled, Index.handleLogout; simpl. by rewrite lookup_delete_eq.
Qed.

Lemma page_ok_render env a :
  settled a → reachable (Index.tree a) → with_token (Index.tree a) →
  page_ok (Index.render env a).
Proof.
  intros Hs Hr Hw. split_and!.
  - done.
  - by apply render_in_step.
  - by apply render_reachable.
  - by apply render_with_token.
Qed.

Lemma page_ok_mount storage env : page_ok (Index.mount storage env).
Proof.
  unfold Index.mount.
  set (a0 := Index.render env (Index.MkApp storage [] false None World_init)).
  assert (Index.tree (Index.effect a0) = World_init) as Ht1.
  { unfold Index.effect. by destruct (Index.truthy _). }
  apply page_ok_render.
  - by apply settled_effect.
  - rewrite Ht1. by exists [].
  - rewrite Ht1. by constructor.
Qed.

Lemma page_ok_handle a e : page_ok a → page_ok (Index.handle a e).
Proof.
  intros (Hs & Hi & Hr & Hw). destruct e as [[t| |e] env]; simpl.
  - apply page_ok_render; [apply settled_login|done..].
  - apply page_ok_render; [apply settled_logout|done..].
  - unfold Index.handle; simpl.
    assert (∀ ev, (∀ token, ev ≠ Render token) → ev ≠ Unmount →
              page_ok (Index.set_tree (λ w, step w (ev, env)) a)) as Hbelow.
    { intros ev Hnr Hnu. split_and!.
      - done.
      - unfold in_step in *; simpl.
        destruct (Index.isAuthenticated a).
        + by rewrite session_below.
        + destruct Hi as [Hd Hf].
          assert (dashboard (step (Index.tree a) (ev, env)) = None) as Hd'.
          { pose proof (session_below (Index.tree a) ev env Hnr Hnu) as H.
            unfold dash_session in H. rewrite Hd in H.
            by destruct (dashboard (step _ _)). }
          split; [done|].
          by apply reachable_no_dashboard; [apply reachable_step|].
      - by apply reachable_step.
      - apply with_token_step; [done|]. by rewrite opened_by_other. }
    destruct e; try (by apply Hbelow); done.
Qed.

Lemma page_ok_run trace : ∀ a,
  page_ok a → page_ok (Index.run_actions a trace).
Proof.
  induction trace as [|e trace IH]; intros a Ha; simpl; [done|].
  by apply IH, page_ok_handle.
Qed.

Lemma storage_below a e :
  below e → Index.localStorage (Index.handle a e) = Index.localStorage a.
Proof.
  destruct e as [[t| |e] env]; try done. intros _.
  unfold Index.handle; simpl. by destruct e.
Qed.

Lemma storage_below_run trace : ∀ a,
  Forall below trace →
  Index.localStorage (Index.run_actions a trace) = Index.localStorage a.
Proof.
  induction trace as [|e trace IH]; intros a Htr; simpl; [done|].
  apply Forall_cons in Htr as [He Htr].
  by rewrite IH, storage_below.
Qed.

(** ** What each event does to the list of transports *)

Lemma released_all (T : list (option string * bool)) :
  Forall (λ p, p.2 = true) T → released <$> T = T.
Proof.
  induction 1 as [|[p b] T Hp _ IH]; [done|].
  rewrite fmap_cons, IH. simpl in Hp. by rewrite Hp.
Qed.

Lemma release_last (olds : list (option string * bool)) x :
  Forall (λ p, p.2 = true) olds →
  alter released (length olds) (olds ++ [x]) = released <$> (olds ++ [x]).
Proof.
  intros Holds. by rewrite alter_last, fmap_app, released_all.
Qed.

(** The transport the mounted Dashboard holds is the only one that is not
    released. *)
Lemma release_held w d :
  reachable w → dashboard w = Some d →
  ∃ cur, dash_cleanup d = Some cur
         ∧ alter released cur (transports w) = released <$> transports w.
Proof.
  intros Hr Hd. pose proof (reachable_Inv _ Hr) as HI.
  pose proof (reachable_live_transport _ Hr) as Hl. unfold live in Hl.
  rewrite Hd in Hl. destruct Hl as (olds & Ht & Holds & Hs).
  destruct (Inv_dashboard _ _ HI Hd) as (cur & Hs' & Hcl & _).
  exists cur. split; [done|].
  assert (cur = length olds) as -> by congruence.
  rewrite Ht. by apply release_last.
Qed.

(** A render of the Dashboard: nothing for the token in use; otherwise the
    transport it holds, if any, is released and one is opened for the new
    token. *)
Lemma transports_render w token env :
  reachable w →
  transports (step w (Render token, env))
  = match dashboard w with
    | Some d => if decide (dash_deps d = token) then transports w
                else (released <$> transports w) ++ [(token, false)]
    | None => (released <$> transports w) ++ [(token, false)]
    end.
Proof.
  intros Hr. unfold step; simpl. destruct (dashboard w) as [d|] eqn:Hd.
  - case_decide; [done|]. cbv [and_then].
    rewrite transports_rerender, transports_dashboard_effect.
    destruct (release_held w d Hr Hd) as (cur & Hcl & <-).
    unfold Dashboard.cleanup. by rewrite Hcl, transports_close.
  - unfold Dashboard.mount. cbv [and_then].
    rewrite transports_dashboard_effect. f_equal. symmetry.
    apply released_all.
    pose proof (reachable_live_transport _ Hr) as Hl. unfold live in Hl.
    by rewrite Hd in Hl.
Qed.

(** Taking the Dashboard out of the tree releases the transport it holds
    and opens none. *)
Lemma transports_unmount w env :
  reachable w →
  transports (step w (Unmount, env)) = released <$> transports w.
Proof.
  intros Hr. unfold step; simpl. destruct (dashboard w) as [d|] eqn:Hd.
  - cbv [and_then].
    destruct (release_held w d Hr Hd) as (cur & Hcl & <-).
    assert (transports (Dashboard.cleanup d env
                          (set_feed None (set_dashboard None w)))
            = alter released cur (transports w)) as Ht.
    { unfold Dashboard.cleanup. by rewrite Hcl, transports_close. }
    destruct (feed w); [by rewrite transports_feed_cleanup|done].
  - symmetry. apply released_all.
    pose proof (reachable_live_transport _ Hr) as Hl. unfold live in Hl.
    by rewrite Hd in Hl.
Qed.

(** Nothing else opens or releases a transport. *)
Lemma transports_below w e env :
  (∀ token, e ≠ Render token) → e ≠ Unmount →
  transports (step w (e, env)) = transports w.
Proof.
  intros Hr Hu. destruct e as [token| | | | |s|s|s ev arg]; try done.
  - by destruct (Hr token).
  - unfold step; simpl. destruct (dashboard w); [|done].
    destruct (feed w); [done|].
    unfold RealTimeUpdates.mount. cbv [and_then].
    by rewrite transports_feed_effect.
  - unfold step; simpl. destruct (feed w); [|done]. cbv [and_then].
    by rewrite transports_feed_cleanup.
  - unfold step; simpl. unfold RealTimeUpdates.onClick_clear.
    destruct (feed w); [|done]. apply transports_Feed_set.
  - unfold step; simpl. cbv [and_then]. unfold transports at 1.
    rewrite emit_sockets. by apply transports_update_same.
  - unfold step; simpl. cbv [and_then]. unfold transports at 1.
    rewrite emit_sockets. by apply transports_update_same.
  - unfold step; simpl. unfold transports. by rewrite emit_sockets.
Qed.

(** The session of an idle page: logged in, the last transport carries
    the page's token and is the only one not released; logged out, every
    transport is released. *)
Lemma page_session a :
  page_ok a →
  match Index.token a with
  | Some t =>
      ∃ d olds, dashboard (Index.tree a) = Some d ∧ dash_deps d = Some t
                ∧ transports (Index.tree a) = olds ++ [(Some t, false)]
                ∧ Forall (λ p, p.2 = true) olds
  | None =>
      dashboard (Index.tree a) = None
      ∧ Forall (λ p, p.2 = true) (transports (Index.tree a))
  end.
Proof.
  intros (Hs & Hi & Hr & _).
  pose proof (reachable_live_transport _ Hr) as Hl.
  unfold settled, in_step, live, dash_session in *.
  destruct (Index.isAuthenticated a).
  - destruct Hs as (t & Ht & _). destruct Hi as (i & Hi). rewrite Ht in *.
    destruct (dashboard (Index.tree a)) as [d|]; [|done].
    simpl in Hi. injection Hi as _ Hdeps.
    destruct Hl as (olds & HT & Holds & _).
    exists d, olds. rewrite Hdeps in HT. done.
  - destruct Hs as [-> _], Hi as [Hd _]. by rewrite Hd in Hl.
Qed.

(** ** The sample worlds *)

Lemma reachable_live : reachable world_live.
Proof. exact (ex_intro _ trace_live eq_refl). Defined.

Lemma feed_world_live : feed world_live = Some feed_live.
Proof. vm_compute. reflexivity. Defined.

Lemma reachable_one : reachable world_one.
Proof. exact (ex_intro _ _ eq_refl). Defined.

Lemma feed_world_one : feed world_one = Some feed_one.
Proof. vm_compute. reflexivity. Defined.

(** * The claims *)

(** C1.  Along every run from the initial world, whatever messages arrive
    and whatever else happens in between (clearing, tab changes, token
    changes, connection changes), [records()] never holds more than fifty
    records. *)
Theorem feed_length_at_most_50 (trace : list (Event * Samples)) :
  length (records (run World_init trace)) ≤ 50.
Proof. apply (records_bounded trace). Qed.

(** C2.  Once more than fifty messages have arrived on the feed's socket,
    [records()] is exactly the records of the fifty latest messages, newest
    first: entry [j] is the record of the message received [j] places
    before the last one, so no earlier message is retained.  With the bound
    of the slice set for a capacity of two, receiving A, B, C leaves
    [C, B]. *)
Theorem newest_fifty_are_retained (w : World) (c : FeedInst) (s : nat)
    (msgs : list Inbound) :
  reachable w → feed w = Some c → feed_deps c = Some s →
  50 < length msgs →
  let after := records (run w (arrival s <$> msgs)) in
  after = record_of <$> take 50 (reverse msgs)
  ∧ length after = 50
  ∧ (∀ j, j < 50 →
       after !! j = record_of <$> msgs !! (length msgs - 1 - j))
  ∧ (∀ A B C : Inbound,
       feed_after 1 [] [A; B; C] = [record_of C; record_of B])
  ∧ addUpdate = addUpdate_slice 49.
Proof.
  intros Hr Hc Hs Hlen after.
  assert (after = record_of <$> take 50 (reverse msgs)) as Hafter.
  { unfold after. rewrite (run_arrivals s msgs w c) by auto using reachable_Inv.
    rewrite feed_after_take by (by apply reachable_bounded).
    rewrite take_app_le by (rewrite length_reverse, length_fmap; lia).
    by rewrite <- fmap_reverse, fmap_take. }
  split_and!; try done.
  - rewrite Hafter, length_fmap, length_take, length_reverse. lia.
  - intros j Hj. rewrite Hafter, list_lookup_fmap, lookup_take.
    rewrite decide_True by done. rewrite reverse_lookup by lia.
    by replace (length msgs - 1 - j) with (length msgs - S j) by lia.
Qed.

Lemma newest_fifty_are_retained_witness :
  records (run world_live (arrival 0 <$> burst 60))
  = record_of <$> take 50 (reverse (burst 60)).
Proof.
  assert (50 < length (burst 60)) as Hlen by (vm_compute; lia).
  exact (proj1 (newest_fifty_are_retained world_live feed_live 0 (burst 60)
                  reachable_live feed_world_live eq_refl Hlen)).
Defined.

(** C3, as the code has it.  Two records get the same [id] exactly when
    they were built for the same channel, at the same [Date.now()] reading
    and with the same [Math.random()] draw; the payload plays no part.  So
    two records differ in [id] whenever they differ in channel, in
    millisecond or in draw. *)
Theorem ids_differ_unless_same_channel_instant_and_draw
    (t1 t2 : UpdateType) (d1 d2 : JsValue) (e1 e2 : Samples) :
  id (newUpdate t1 d1 e1) = id (newUpdate t2 d2 e2)
  ↔ t1 = t2 ∧ date_now e1 = date_now e2 ∧ math_random e1 = math_random e2.
Proof.
  simpl. split.
  - intros Heq. apply type_prefix_inj in Heq as [-> Heq].
    apply number_then_dash in Heq as [-> ->]. done.
  - by intros (-> & -> & ->).
Qed.

Lemma ids_differ_unless_same_channel_instant_and_draw_witness :
  id (newUpdate report_update JNull (at_ms 1))
  ≠ id (newUpdate report_update JNull (at_ms 2)).
Proof.
  intros Heq.
  apply (ids_differ_unless_same_channel_instant_and_draw
           report_update report_update JNull JNull (at_ms 1) (at_ms 2)) in Heq
    as (_ & Hnow & _).
  discriminate Hnow.
Defined.

(** C3, as the claim states it: any two distinct messages would get
    different ids.  Two different report-updates handled in the same
    millisecond with equal draws are both retained, under one id. *)
Lemma same_instant_same_draw_same_id :
  let m1 : Inbound := (report_update, JStr "first", at_epoch) in
  let m2 : Inbound := (report_update, JStr "second", at_epoch) in
  m1 ≠ m2
  ∧ records (run world_live (arrival 0 <$> [m1; m2]))
    = [record_of m2; record_of m1]
  ∧ id (record_of m1) = id (record_of m2).
Proof. split; [done|]. vm_compute. done. Qed.

(** C4.  The credential is the token the page holds, and a session is open
    for it exactly while the page is logged in: then the last transport
    carries that token and is the only one not released; with no token
    every transport is released.  On any state the page can reach, from
    any load:
    - logging in with the token in use creates no transport, and changes
      nothing below the page;
    - logging in with another token releases the transport of the session
      and opens one carrying the new token;
    - logging out, which makes the token absent, releases the transport
      of the session and opens none;
    - nothing else opens or releases a transport.
    A load that finds no token in the storage opens no transport. *)
Theorem open_is_idempotent_per_credential (storage : gmap string string)
    (env : Samples) (trace : list (Index.Action * Samples))
    (e : Index.Action * Samples) :
  let a := Index.run_actions (Index.mount storage env) trace in
  let a' := Index.handle a e in
  let T := transports (Index.tree a) in
  match Index.token a with
  | Some t => ∃ olds, T = olds ++ [(Some t, false)]
                      ∧ Forall (λ p, p.2 = true) olds
  | None => Forall (λ p, p.2 = true) T
  end
  ∧ transports (Index.tree a')
    = match e.1 with
      | Index.Login t' =>
          if decide (Index.token a = Some t') then T
          else (released <$> T) ++ [(Some t', false)]
      | Index.Logout => released <$> T
      | Index.Below _ => T
      end
  ∧ (∀ t', e.1 = Index.Login t' → Index.token a = Some t' →
           Index.tree a' = Index.tree a)
  ∧ transports (Index.tree (Index.mount storage env))
    = match storage !! "disaster_token" with
      | Some t => if decide (t = "") then [] else [(Some t, false)]
      | None => []
      end.
Proof.
  intros a a' T.
  pose proof (page_ok_run trace _ (page_ok_mount storage env)) as Hok.
  fold a in Hok. pose proof (page_session a Hok) as Hses.
  destruct Hok as (_ & _ & Hr & _).
  split_and!.
  - destruct (Index.token a) as [t|].
    + destruct Hses as (d & olds & _ & _ & HT & Holds). by exists olds.
    + by destruct Hses.
  - unfold a'. destruct e as [[t'| |ev] env']; simpl.
    + unfold Index.handle, Index.render, Index.handleLogin; simpl.
      rewrite transports_render by done. fold T.
      destruct (Index.token a) as [t|].
      * destruct Hses as (d & olds & -> & -> & _).
        destruct (decide (Some t = Some t')); done.
      * destruct Hses as [-> _]. by rewrite decide_False.
    + unfold Index.handle, Index.render, Index.handleLogout; simpl.
      by apply transports_unmount.
    + unfold Index.handle; simpl.
      destruct ev; try done; simpl; by apply transports_below.
  - intros t' He Htok. unfold a', Index.handle. rewrite He.
    unfold Index.render, Index.handleLogin; simpl.
    rewrite Htok in Hses. destruct Hses as (d & olds & Hd & Hdeps & _).
    unfold step; simpl. rewrite Hd. by rewrite decide_True.
  - unfold Index.mount, Index.effect, Index.render; simpl.
    destruct (storage !! "disaster_token") as [t|]; simpl; [|done].
    by case_decide.
Qed.

(** One session, event by event: a load on an empty storage, a login, the
    same login again, a login with another token, a logout. *)
Example transports_of_a_session :
  let opens trace :=
    transports (Index.tree (Index.run_actions (Index.mount ∅ at_epoch) trace))
  in
  opens [] = []
  ∧ opens [ (Index.Login "tok", at_epoch) ] = [(Some "tok", false)]
  ∧ opens [ (Index.Login "tok", at_epoch); (Index.Login "tok", at_epoch) ]
    = [(Some "tok", false)]
  ∧ opens [ (Index.Login "tok", at_epoch); (Index.Login "new", at_epoch) ]
    = [(Some "tok", true); (Some "new", false)]
  ∧ opens [ (Index.Login "tok", at_epoch); (Index.Login "new", at_epoch);
            (Index.Logout, at_epoch) ]
    = [(Some "tok", true); (Some "new", true)].
Proof. vm_compute. done. Qed.

(** C5.  A message on a subscribed channel becomes, there and then, a
    record that carries the channel's name and sits at the front.  From an
    empty feed, a disaster-update with payload [{id: 7}] followed by a
    resource-update with payload [{id: 3}] gives
    [resource-update(3), disaster-update(7)]. *)
Theorem two_messages_newest_first (w : World) (c : FeedInst) (s : nat)
    (e1 e2 : Samples) :
  reachable w → feed w = Some c → feed_deps c = Some s →
  feed_updates c = [] →
  let after :=
    records (run w
      [ (Message s "disaster-update" (JObj [("id", JNum 7)]), e1);
        (Message s "resource-update" (JObj [("id", JNum 3)]), e2) ]) in
  after = [ newUpdate resource_update (JObj [("id", JNum 3)]) e2;
            newUpdate disaster_update (JObj [("id", JNum 7)]) e1 ]
  ∧ (λ u, (type_name (type u), data u)) <$> after
    = [ ("resource-update", JObj [("id", JNum 3)]);
        ("disaster-update", JObj [("id", JNum 7)]) ]
  ∧ (∀ t d env,
       head (records (step w (Message s (type_name t) d, env)))
       = Some (newUpdate t d env)).
Proof.
  intros Hr Hc Hs Hempty after.
  assert (after = [ newUpdate resource_update (JObj [("id", JNum 3)]) e2;
                    newUpdate disaster_update (JObj [("id", JNum 7)]) e1 ])
    as Hafter.
  { unfold after.
    pose proof (run_arrivals s
      [ (disaster_update, JObj [("id", JNum 7)], e1);
        (resource_update, JObj [("id", JNum 3)], e2) ] w c
      (reachable_Inv _ Hr) Hc Hs) as Hrun.
    etrans; [exact Hrun|].
    unfold records. rewrite Hc, Hempty. reflexivity. }
  split_and!; [done|by rewrite Hafter|].
  intros t d env. by rewrite (message_records w c s) by auto using reachable_Inv.
Qed.

Lemma two_messages_newest_first_witness :
  records (run world_live
    [ (Message 0 "disaster-update" (JObj [("id", JNum 7)]), at_ms 1);
      (Message 0 "resource-update" (JObj [("id", JNum 3)]), at_ms 2) ])
  = [ newUpdate resource_update (JObj [("id", JNum 3)]) (at_ms 2);
      newUpdate disaster_update (JObj [("id", JNum 7)]) (at_ms 1) ].
Proof.
  exact (proj1 (two_messages_newest_first world_live feed_live 0
                  (at_ms 1) (at_ms 2)
                  reachable_live feed_world_live eq_refl eq_refl)).
Defined.

(** C6.  Once the feed's cleanup has run, no listener for any of the four
    channels is left on any socket, and whatever the transport delivers
    afterwards (messages on any channel of any socket, connects,
    disconnects) leaves [records()] as it was. *)
Theorem no_records_after_detach (w : World) (c : FeedInst)
    (trace : list (Event * Samples)) :
  reachable w → feed w = Some c → Forall from_transport trace →
  let w' := RealTimeUpdates.cleanup c w in
  records (run w' trace) = records w
  ∧ (∀ s sock t, sockets w' !! s = Some sock →
       listeners (type_name t) sock = []).
Proof.
  intros Hr Hc Htr w'. pose proof (reachable_Inv _ Hr) as HI.
  pose proof (cleanup_InvW w c HI Hc) as HI'. fold w' in HI'. split.
  - rewrite quiet_run; [|by intros s m ev fn; apply (InvW_quiet _ _ _ _ _ _ HI')|done].
    unfold w'. apply (closed_feed_cleanup (λ l, l = records w)). done.
  - intros s sock t Hs. apply (InvW_no_channel _ _ s _ t HI').
    unfold tables. by rewrite list_lookup_fmap, Hs.
Qed.

Lemma no_records_after_detach_witness :
  records (run (RealTimeUpdates.cleanup feed_one world_one)
             [ (Message 0 "report-update" (JStr "late"), at_ms 4);
               (Disconnect 0, at_ms 5);
               (Message 0 "disaster-update" JNull, at_ms 6) ])
  = records world_one.
Proof.
  assert (Forall from_transport
            [ (Message 0 "report-update" (JStr "late"), at_ms 4);
              (Disconnect 0, at_ms 5);
              (Message 0 "disaster-update" JNull, at_ms 6) ]) as Htr
    by (repeat constructor).
  exact (proj1 (no_records_after_detach world_one feed_one _
                  reachable_one feed_world_one Htr)).
Defined.

(** C7.  Whatever the feed held, after Clear All [records()] is empty; the
    sockets (their connection flags and their listeners), the Dashboard
    and its [isConnected], and the feed's own [isConnected] and attachment
    are exactly as before. *)
Theorem clear_empties_the_feed_only (w : World) (env : Samples) :
  let w' := step w (ClickClearAll, env) in
  records w' = []
  ∧ sockets w' = sockets w
  ∧ dashboard w' = dashboard w
  ∧ instances w' = instances w
  ∧ (λ c, (feed_inst c, feed_isConnected c, feed_deps c)) <$> feed w'
    = (λ c, (feed_inst c, feed_isConnected c, feed_deps c)) <$> feed w.
Proof.
  unfold step; simpl.
  unfold RealTimeUpdates.onClick_clear, Feed_setUpdates, Feed_set, records.
  destruct w as [S n D [c|]]; simpl; [|done].
  by rewrite decide_True.
Qed.

(** C8.  Whatever the payload of a message on a subscribed channel is, its
    listener builds a record and stores it: afterwards the first record
    carries that very payload under the channel's name, and the feed is
    still mounted on the same socket, ready for the next message. *)
Theorem every_payload_is_recorded (w : World) (c : FeedInst) (s : nat)
    (t : UpdateType) (d : JsValue) (env : Samples) :
  reachable w → feed w = Some c → feed_deps c = Some s →
  let w' := step w (Message s (type_name t) d, env) in
  (∃ u rest, records w' = u :: rest
             ∧ type u = t ∧ data u = d ∧ timestamp u = iso_string env)
  ∧ length (records w') = Nat.min 50 (S (length (records w)))
  ∧ (∃ c', feed w' = Some c' ∧ feed_deps c' = Some s)
  ∧ reachable w'.
Proof.
  intros Hr Hc Hs w'. pose proof (reachable_Inv _ Hr) as HI. split_and!.
  - exists (newUpdate t d env), (take 49 (records w)). split; [|done].
    unfold w'. by rewrite (message_records w c s).
  - unfold w'. rewrite (message_records w c s) by done.
    unfold addUpdate, slice0. rewrite length_cons, length_take. lia.
  - unfold w'. rewrite (message_step w c s), Feed_setUpdates_own by done.
    by eexists.
  - destruct Hr as [trace <-].
    exists (trace ++ [(Message s (type_name t) d, env)]).
    unfold run. by rewrite foldl_app.
Qed.

Lemma every_payload_is_recorded_witness :
  ∃ u rest,
    records (step world_live
               (Message 0 (type_name disaster_update)
                  (JArr [JUndefined; JStr "not a disaster"; JObj []]),
                at_ms 9))
    = u :: rest
    ∧ type u = disaster_update
    ∧ data u = JArr [JUndefined; JStr "not a disaster"; JObj []]
    ∧ timestamp u = iso_string (at_ms 9).
Proof.
  exact (proj1 (every_payload_is_recorded world_live feed_live 0
                  disaster_update
                  (JArr [JUndefined; JStr "not a disaster"; JObj []])
                  (at_ms 9)
                  reachable_live feed_world_live eq_refl)).
Defined.

(** C9.  Along every run the connection state seen by the Dashboard, and
    the one seen by the feed, change only by alternating: starting
    disconnected, the transitions go connected, disconnected, connected,
    and so on.  A connect or disconnect notification never changes
    [records()], and one that repeats the current state (connect while
    connected, disconnect while disconnected) leaves that state as it is. *)
Theorem connection_state_alternates (w : World) (s : nat) (env : Samples)
    (trace : list (Event * Samples)) :
  reachable w →
  alternates true (transitions false (observe dash_state World_init trace))
  ∧ alternates true (transitions false (observe feed_state World_init trace))
  ∧ alternates (negb (dash_state w))
      (transitions (dash_state w) (observe dash_state w trace))
  ∧ alternates (negb (feed_state w))
      (transitions (feed_state w) (observe feed_state w trace))
  ∧ records (step w (Connect s, env)) = records w
  ∧ records (step w (Disconnect s, env)) = records w
  ∧ (dash_state w = true → dash_state (step w (Connect s, env)) = true)
  ∧ (dash_state w = false → dash_state (step w (Disconnect s, env)) = false)
  ∧ (feed_state w = true → feed_state (step w (Connect s, env)) = true)
  ∧ (feed_state w = false → feed_state (step w (Disconnect s, env)) = false).
Proof.
  intros Hr. pose proof (reachable_Inv _ Hr) as HI.
  destruct (signal_step true s JUndefined env w HI) as (Hr1 & Hd1 & Hf1).
  destruct (signal_step false s (JStr "transport close") env w HI)
    as (Hr0 & Hd0 & Hf0).
  split_and!; try done;
    first [apply (transitions_alternate _ false)|apply transitions_alternate].
Qed.

Example transitions_of_a_run :
  let obs := observe dash_state World_init
               [ (Render (Some "tok"), at_epoch); (Connect 0, at_epoch);
                 (Connect 0, at_epoch); (Disconnect 0, at_epoch);
                 (Connect 0, at_epoch) ] in
  obs = [false; true; true; false; true]
  ∧ transitions false obs = [true; false; true].
Proof. vm_compute. done. Qed.

Lemma connection_state_alternates_witness :
  records (step world_one (Connect 0, at_ms 7)) = records world_one.
Proof.
  exact (proj1 (proj2 (proj2 (proj2 (proj2
           (connection_state_alternates world_one 0 (at_ms 7) []
              reachable_one)))))).
Defined.

(** C10.  One message changes the feed in one way only: the new record is
    put in front of the first forty-nine prior records.  Every prior record
    that survives keeps its contents and moves back by exactly one place;
    below capacity nothing is dropped, at capacity only the last record is.
    Sockets and the Dashboard are untouched. *)
Theorem message_prepends_and_drops_last (w : World) (c : FeedInst) (s : nat)
    (t : UpdateType) (d : JsValue) (env : Samples) :
  reachable w → feed w = Some c → feed_deps c = Some s →
  let w' := step w (Message s (type_name t) d, env) in
  records w' = newUpdate t d env :: take 49 (records w)
  ∧ (∀ i, i < 49 → records w' !! S i = records w !! i)
  ∧ (length (records w) < 50 → records w' = newUpdate t d env :: records w)
  ∧ (∀ kept last, records w = kept ++ [last] → length (records w) = 50 →
       records w' = newUpdate t d env :: kept)
  ∧ sockets w' = sockets w
  ∧ dashboard w' = dashboard w.
Proof.
  intros Hr Hc Hs w'.
  assert (records w' = newUpdate t d env :: take 49 (records w)) as Hw'.
  { unfold w'. by rewrite (message_records w c s) by auto using reachable_Inv. }
  split_and!.
  - done.
  - intros i Hi. rewrite Hw'. simpl. rewrite lookup_take.
    by rewrite decide_True.
  - intros Hlt. rewrite Hw'. f_equal. apply take_ge. lia.
  - intros kept last Hk Hfull. rewrite Hw', Hk. f_equal.
    rewrite Hk, length_app in Hfull. simpl in Hfull.
    rewrite take_app_le by lia. apply take_ge. lia.
  - unfold w'. rewrite (message_step w c s) by auto using reachable_Inv.
    apply Feed_set_sockets.
  - unfold w'. rewrite (message_step w c s) by auto using reachable_Inv.
    apply Feed_set_dashboard.
Qed.

Lemma message_prepends_and_drops_last_witness :
  records (step world_live (Message 0 (type_name report_update) JNull, at_ms 5))
  = newUpdate report_update JNull (at_ms 5) :: take 49 (records world_live).
Proof.
  exact (proj1 (message_prepends_and_drops_last world_live feed_live 0
                  report_update JNull (at_ms 5)
                  reachable_live feed_world_live eq_refl)).
Defined.

(** * Further properties *)

(** X1.  In every reachable world each of the four channels has exactly one
    listener on the socket the feed is attached to, the one of the mounted
    feed instance, and no listener on any other socket; with no feed
    mounted no socket has a channel listener.  Tab switches and token
    changes never leave a second or a stale channel listener behind. *)
Theorem one_listener_per_channel (w : World) (s : nat) (t : UpdateType) :
  reachable w →
  listeners_of w s (type_name t)
  = match feed w with
    | Some c => if decide (feed_deps c = Some s)
                then [FeedChannel (feed_inst c) t] else []
    | None => []
    end.
Proof. intros Hr. by apply Inv_channel_listeners, reachable_Inv. Qed.

Lemma one_listener_per_channel_witness :
  listeners_of world_one 0 (type_name report_update)
  = match feed world_one with
    | Some c => if decide (feed_deps c = Some 0)
                then [FeedChannel (feed_inst c) report_update] else []
    | None => []
    end.
Proof.
  exact (one_listener_per_channel world_one 0 report_update reachable_one).
Defined.

(** X2.  A message changes [records()] only when it arrives on the socket
    the feed is attached to and under one of the four channel names: a
    message under any other name, on any other socket (a released one
    included), or while no feed is mounted leaves [records()] as it was. *)
Theorem other_messages_are_ignored (w : World) (s : nat) (ev : string)
    (arg : JsValue) (env : Samples) :
  reachable w →
  (∀ t, attached_to w s → ev ≠ type_name t) →
  records (step w (Message s ev arg, env)) = records w.
Proof.
  intros Hr Hno. pose proof (reachable_Inv _ Hr) as HI.
  unfold step; simpl. rewrite emit_listeners_of.
  destruct (channel_or_not (listeners_of w s ev)) as [Hfns|(i & t & Hfn)].
  - by apply calls_no_channel.
  - destruct (Inv_channel_listener_attached w s ev i t HI Hfn) as [Hat ->].
    by destruct (Hno t Hat).
Qed.

Lemma other_messages_are_ignored_witness :
  records (step world_one (Message 0 "chat-message" (JStr "hi"), at_ms 4))
  = records world_one.
Proof.
  apply (other_messages_are_ignored world_one 0 "chat-message" (JStr "hi")
           (at_ms 4) reachable_one).
  intros t _. destruct t; discriminate.
Defined.

(** X3.  A change of token does not touch the retained records: after the
    Dashboard is rendered with any token, [records()] is what it was, the
    same feed instance is still mounted, and when the token differed from
    the one in use the feed is attached to the newly opened socket and to
    no other. *)
Theorem token_change_keeps_the_records (w : World) (d : DashboardInst)
    (token : option string) (env : Samples) :
  reachable w → dashboard w = Some d →
  let w' := step w (Render token, env) in
  records w' = records w
  ∧ feed_inst <$> feed w' = feed_inst <$> feed w
  ∧ (dash_deps d ≠ token →
       ∀ c', feed w' = Some c' → feed_deps c' = Some (length (sockets w))).
Proof.
  intros Hr Hd w'. subst w'. pose proof (reachable_Inv _ Hr) as HI.
  split_and!.
  - by apply records_render.
  - apply feed_inst_render.
  - intros Hne c' Hc'.
    pose proof (reachable_Inv _ (reachable_step w (Render token, env) Hr))
      as HI'.
    destruct (Inv_feed _ _ HI' Hc') as (d' & s' & Hd' & Hs' & Hcs & _).
    pose proof (socket_prop_render_changed w d token env Hd Hne) as Hsp.
    unfold socket_prop in Hsp. rewrite Hd' in Hsp. congruence.
Qed.

Lemma token_change_keeps_the_records_witness :
  records (step world_one (Render (Some "other"), at_ms 9))
  = records world_one.
Proof.
  assert (dashboard world_one
          = Some {| dash_inst := 0; dash_socket := Some 0;
                    dash_isConnected := true; dash_deps := Some "tok";
                    dash_cleanup := Some 0 |}) as Hd
    by (vm_compute; reflexivity).
  exact (proj1 (token_change_keeps_the_records world_one _ (Some "other")
                  (at_ms 9) reachable_one Hd)).
Defined.

(** X4.  The feed's cleanup removes every listener of connect and of
    disconnect from the socket it shares with the Dashboard, the
    Dashboard's own included.  Once the Real-time tab has been left, that
    socket is still the one the Dashboard holds, but a connect or a
    disconnect on it no longer changes the Dashboard's [isConnected]. *)
Theorem leaving_the_tab_unhooks_the_dashboard (w : World) (c : FeedInst)
    (s : nat) (env e1 : Samples) :
  reachable w → feed w = Some c → feed_deps c = Some s →
  let w' := step w (HideRealtimeTab, env) in
  socket_prop w' = Some s
  ∧ listeners_of w' s "connect" = []
  ∧ listeners_of w' s "disconnect" = []
  ∧ dash_state (step w' (Connect s, e1)) = dash_state w'
  ∧ dash_state (step w' (Disconnect s, e1)) = dash_state w'.
Proof.
  intros Hr Hc Hs w'. pose proof (reachable_Inv _ Hr) as HI.
  assert (listeners_of w' s "connect" = []) as Hcon
    by (apply (listeners_of_hidden w c); [done..|set_solver]).
  assert (listeners_of w' s "disconnect" = []) as Hdis
    by (apply (listeners_of_hidden w c); [done..|set_solver]).
  split_and!; [|done|done|..].
  - destruct (Inv_feed _ _ HI Hc) as (d & s' & Hd & Hs' & Hcs & _).
    apply (socket_prop_wiring _ _ (dash_cleanup d)). unfold w'.
    rewrite (proj1 (proj2 (wiring_eq _ _ _ _ _ (hide_wiring w c s env Hc Hs)))).
    unfold dash_wiring. rewrite Hd. simpl. congruence.
  - unfold step; simpl. cbv [and_then]. rewrite emit_listeners_of.
    change (listeners_of (update_socket s (Socket_set_connected true) w') s
              "connect") with
      (match (alter (Socket_set_connected true) s (sockets w')) !! s with
       | Some sock => listeners "connect" sock | None => [] end).
    rewrite list_lookup_alter_eq. unfold listeners_of in Hcon.
    destruct (sockets w' !! s); simpl; [|done]. unfold listeners in *.
    simpl. by rewrite Hcon.
  - unfold step; simpl. cbv [and_then]. rewrite emit_listeners_of.
    change (listeners_of (update_socket s (Socket_set_connected false) w') s
              "disconnect") with
      (match (alter (Socket_set_connected false) s (sockets w')) !! s with
       | Some sock => listeners "disconnect" sock | None => [] end).
    rewrite list_lookup_alter_eq. unfold listeners_of in Hdis.
    destruct (sockets w' !! s); simpl; [|done]. unfold listeners in *.
    simpl. by rewrite Hdis.
Qed.

Lemma leaving_the_tab_unhooks_the_dashboard_witness :
  dash_state (step (step world_one (HideRealtimeTab, at_ms 4))
                (Disconnect 0, at_ms 5))
  = dash_state (step world_one (HideRealtimeTab, at_ms 4)).
Proof.
  exact (proj2 (proj2 (proj2 (proj2
           (leaving_the_tab_unhooks_the_dashboard world_one feed_one 0
              (at_ms 4) (at_ms 5) reachable_one feed_world_one eq_refl))))).
Defined.

(** X5.  The retained records live in the mounted feed only.  Leaving the
    Real-time tab discards them; whatever the transport delivers while the
    tab is closed is not recorded; and when the tab is opened again the
    feed starts empty, attached to the socket the Dashboard holds. *)
Theorem leaving_the_tab_discards_the_records (w : World) (c : FeedInst)
    (s : nat) (trace : list (Event * Samples)) (e1 e2 : Samples) :
  reachable w → feed w = Some c → feed_deps c = Some s →
  Forall from_transport trace →
  let away := run (step w (HideRealtimeTab, e1)) trace in
  let back := step away (ShowRealtimeTab, e2) in
  records away = []
  ∧ records back = []
  ∧ attached_to back s.
Proof.
  intros Hr Hc Hs Htr away back. pose proof (reachable_Inv _ Hr) as HI.
  destruct (Inv_feed _ _ HI Hc) as (d & s' & Hd & Hs' & Hcs & _).
  assert (s' = s) as -> by congruence.
  pose proof (transport_run_wiring trace (step w (HideRealtimeTab, e1)) Htr)
    as Haway. fold away in Haway.
  rewrite (hide_wiring w c s e1 Hc Hs) in Haway.
  apply wiring_eq in Haway as (_ & Hdw & Hfw & _).
  apply feed_wiring_None in Hfw.
  unfold dash_wiring in Hdw. rewrite Hd in Hdw. simpl in Hdw.
  destruct (dashboard away) as [d2|] eqn:Hd2; [|done].
  simpl in Hdw. injection Hdw as Hds _.
  destruct (show_feed away d2 s e2 Hd2) as [Hrec Hback]; [congruence|done|].
  split_and!; [|done..]. unfold records. by rewrite Hfw.
Qed.

Lemma leaving_the_tab_discards_the_records_witness :
  records (step (run (step world_one (HideRealtimeTab, at_ms 4))
                   [ (Message 0 "report-update" (JStr "missed"), at_ms 5) ])
             (ShowRealtimeTab, at_ms 6))
  = [].
Proof.
  assert (Forall from_transport
            [ (Message 0 "report-update" (JStr "missed"), at_ms 5) ]) as Htr
    by (repeat constructor).
  exact (proj1 (proj2
           (leaving_the_tab_discards_the_records world_one feed_one 0 _
              (at_ms 4) (at_ms 6) reachable_one feed_world_one eq_refl Htr))).
Defined.

(** X6.  Transports are created by the Dashboard's effect and by nothing
    else: one step adds a transport exactly when it renders the Dashboard
    for the first time or with a token other than the one in use, and the
    new transport carries that token.  No step changes the credential of
    an existing transport, and a released transport stays released. *)
Theorem transports_grow_only_by_render (w : World) (e : Event * Samples) :
  (transports (step w e)).*1 = (transports w).*1 ++ opened_by w e
  ∧ (∀ i p, transports w !! i = Some (p, true) →
            transports (step w e) !! i = Some (p, true))
  ∧ (∀ i, length (transports w) ≤ i →
          ∀ p b, transports (step w e) !! i = Some (p, b) → b = false).
Proof.
  destruct (transports_step w e) as (T & HT & ->).
  assert (T.*1 = (transports w).*1 ∧ length T = length (transports w)
          ∧ ∀ i p, transports w !! i = Some (p, true) → T !! i = Some (p, true))
    as (Hcred & Hlen & Hrel).
  { destruct HT as [->|[s ->]]; [done|].
    split_and!; [apply released_credentials|apply length_alter|].
    intros i p Hi. rewrite list_lookup_alter. case_decide; [subst s|done].
    by rewrite Hi. }
  split_and!.
  - rewrite fmap_app, Hcred. f_equal. rewrite <- list_fmap_compose.
    by apply list_fmap_id.
  - intros i p Hi. apply lookup_app_l_Some. auto.
  - intros i Hi p b Hlook. rewrite lookup_app_r in Hlook by lia.
    apply list_lookup_fmap_Some in Hlook as (t & Ht & Ht'). by simplify_eq.
Qed.

(** X7.  At any moment at most one transport is unreleased: if a transport
    is unreleased then the Dashboard is mounted, that transport is the
    latest one and the one the Dashboard holds, and it carries the token
    the Dashboard was last given.  With no Dashboard mounted every
    transport has been released. *)
Theorem at_most_one_live_transport (w : World) (i : nat)
    (p : option string) :
  reachable w → transports w !! i = Some (p, false) →
  ∃ d, dashboard w = Some d
       ∧ dash_socket d = Some i
       ∧ dash_deps d = p
       ∧ S i = length (sockets w).
Proof.
  intros Hr Hi. pose proof (reachable_live_transport _ Hr) as Hl.
  unfold live in Hl. destruct (dashboard w) as [d|].
  - destruct Hl as (olds & Ht & Holds & Hs). exists d.
    assert (length (sockets w) = S (length olds)) as Hlen.
    { rewrite <- (length_fmap (λ k, (auth_token k, closed k))).
      fold (transports w). rewrite Ht, length_app. simpl. lia. }
    rewrite Ht in Hi. apply lookup_app_Some in Hi as [Hi|[Hge Hi]].
    + rewrite Forall_forall in Holds.
      by specialize (Holds _ (list_elem_of_lookup_2 _ _ _ Hi)).
    + apply list_lookup_singleton_Some in Hi as [Hi [= -> ]].
      assert (i = length olds) as -> by lia. done.
  - rewrite Forall_forall in Hl.
    by specialize (Hl _ (list_elem_of_lookup_2 _ _ _ Hi)).
Qed.

Lemma at_most_one_live_transport_witness :
  ∃ d, dashboard world_live = Some d
       ∧ dash_socket d = Some 0
       ∧ dash_deps d = Some "tok"
       ∧ 1 = length (sockets world_live).
Proof.
  assert (transports world_live !! 0 = Some (Some "tok", false)) as Hi
    by (vm_compute; reflexivity).
  exact (at_most_one_live_transport world_live 0 (Some "tok")
           reachable_live Hi).
Defined.

(** X8.  The ids of the retained records are pairwise distinct whenever no
    two of the received messages share channel, clock reading and random
    draw: then the keys React is given for the cards of the feed are
    unique. *)
Theorem distinct_keys_give_distinct_ids (w : World) (c : FeedInst) (s : nat)
    (msgs : list Inbound) :
  reachable w → feed w = Some c → feed_deps c = Some s →
  feed_updates c = [] →
  NoDup (id_key <$> msgs) →
  NoDup (id <$> records (run w (arrival s <$> msgs))).
Proof.
  intros Hr Hc Hs Hempty Hkeys.
  rewrite (run_arrivals s msgs w c) by auto using reachable_Inv.
  unfold records. rewrite Hc, Hempty, feed_after_take by (simpl; lia).
  rewrite app_nil_r, fmap_take.
  eapply sublist_NoDup; [|apply sublist_take].
  rewrite fmap_reverse, reverse_Permutation.
  rewrite <- list_fmap_compose.
  change (NoDup ((id_of_key ∘ id_key) <$> msgs)).
  rewrite list_fmap_compose.
  apply NoDup_fmap_2; [|done]. intros k1 k2. apply id_of_key_inj.
Qed.

Lemma distinct_keys_give_distinct_ids_witness :
  NoDup (id <$> records (run world_live (arrival 0 <$> burst 60))).
Proof.
  exact (distinct_keys_give_distinct_ids world_live feed_live 0 (burst 60)
           reachable_live feed_world_live eq_refl eq_refl (burst_keys 60)).
Defined.

(** X9.  The feed's badge follows the socket.  As long as the server sends
    no message under the reserved names connect and disconnect, the
    mounted feed's [isConnected] equals the [connected] flag of the socket
    it is attached to, and its connect and disconnect listeners are still
    registered on that socket. *)
Theorem feed_badge_mirrors_the_socket (trace : list (Event * Samples))
    (c : FeedInst) (s : nat) :
  Forall proper trace →
  feed (run World_init trace) = Some c → feed_deps c = Some s →
  feed_isConnected c
  = RealTimeUpdates.socket_connected s (run World_init trace)
  ∧ FeedConnect (feed_inst c) ∈ listeners_of (run World_init trace) s "connect"
  ∧ FeedDisconnect (feed_inst c)
    ∈ listeners_of (run World_init trace) s "disconnect".
Proof.
  intros Htr Hc Hs.
  assert (mirrors (run World_init trace)) as Hm.
  { apply mirrors_run; [apply Inv_init|done|].
    apply mirrors_unmounted. done. }
  destruct (Hm (feed_inst c) s) as (Hcon & Hdis & Hb).
  { apply feed_wiring_Some. by exists c. }
  split_and!; [|done..].
  rewrite <- Hb. unfold feed_state. by rewrite Hc.
Qed.

Lemma feed_badge_mirrors_the_socket_witness :
  feed_isConnected feed_live
  = RealTimeUpdates.socket_connected 0 (run World_init trace_live).
Proof.
  assert (Forall proper trace_live) as Htr by (repeat constructor).
  exact (proj1 (feed_badge_mirrors_the_socket trace_live feed_live 0
                  Htr feed_world_live eq_refl)).
Defined.

(** Without the restriction the badge can part from the socket: a message
    named connect runs the feed's connect listener although the socket's
    flag is still down. *)
Example reserved_name_breaks_the_mirror :
  let w := run World_init
             [ (Render (Some "tok"), at_epoch); (ShowRealtimeTab, at_epoch);
               (Message 0 "connect" JUndefined, at_epoch) ] in
  feed_state w = true ∧ RealTimeUpdates.socket_connected 0 w = false.
Proof. vm_compute. done. Qed.

(** X10.  The three helpers that dress a card agree on the channels.  Each
    falls back to its default (gray icon, Unknown Update, gray badge)
    exactly for a type that is none of the four channel names, so no
    record the feed holds is shown as unknown; and two records of
    different channels never share icon, title or badge colour. *)
Theorem every_channel_has_its_own_look (ty : string) (t1 t2 : UpdateType) :
  (getUpdateIcon ty = unknown_icon ↔ no_channel ty)
  ∧ (getUpdateTitle ty = unknown_title ↔ no_channel ty)
  ∧ (getTypeColor ty = unknown_color ↔ no_channel ty)
  ∧ (getUpdateIcon (type_name t1) = getUpdateIcon (type_name t2) ↔ t1 = t2)
  ∧ (getUpdateTitle (type_name t1) = getUpdateTitle (type_name t2) ↔ t1 = t2)
  ∧ (getTypeColor (type_name t1) = getTypeColor (type_name t2) ↔ t1 = t2).
Proof.
  split_and!.
  1-3: rewrite no_channel_cases;
    unfold getUpdateIcon, getUpdateTitle, getTypeColor, unknown_icon,
      unknown_title, unknown_color;
    repeat case_decide; split; try done; intros (? & ? & ? & ?); done.
  all: split; [|by intros ->]; destruct t1, t2; try done; vm_compute; done.
Qed.

(** X11.  The page and the Dashboard stay in step.  However the page is
    loaded and whatever happens afterwards, while it is logged in it holds
    a token, that token is the one in [localStorage], and the Dashboard is
    mounted with it; while it is logged out it holds no token, the storage
    holds nothing the next load would accept, and neither the Dashboard
    nor the feed is mounted.  The tree below the page is always one the
    Dashboard's own events can produce. *)
Theorem page_and_dashboard_stay_in_step (storage : gmap string string)
    (env : Samples) (trace : list (Index.Action * Samples)) :
  let a := Index.run_actions (Index.mount storage env) trace in
  reachable (Index.tree a)
  ∧ if Index.isAuthenticated a
    then ∃ t d, Index.token a = Some t
                ∧ Index.localStorage a !! "disaster_token" = Some t
                ∧ dashboard (Index.tree a) = Some d
                ∧ dash_deps d = Some t
    else Index.token a = None
         ∧ Index.truthy (Index.localStorage a !! "disaster_token") = false
         ∧ dashboard (Index.tree a) = None
         ∧ feed (Index.tree a) = None.
Proof.
  intros a.
  destruct (page_ok_run trace _ (page_ok_mount storage env))
    as (Hs & Hi & Hr & _).
  fold a in Hs, Hi, Hr. split; [done|].
  unfold settled, in_step in *. destruct (Index.isAuthenticated a).
  - destruct Hs as (t & Ht & Hst). destruct Hi as (i & Hi).
    unfold dash_session in Hi.
    destruct (dashboard (Index.tree a)) as [d|]; [|done].
    exists t, d. simpl in Hi. split_and!; congruence.
  - destruct Hs as [? ?], Hi as [? ?]. done.
Qed.

(** X12.  Below the page the Dashboard never opens a transport without a
    token: every transport that exists, released or not, was given one,
    and a transport that is not released carries the token the page holds
    now. *)
Theorem no_transport_without_a_token (storage : gmap string string)
    (env : Samples) (trace : list (Index.Action * Samples)) :
  let a := Index.run_actions (Index.mount storage env) trace in
  Forall is_Some (transports (Index.tree a)).*1
  ∧ ∀ i p, transports (Index.tree a) !! i = Some (p, false) →
           Index.isAuthenticated a = true ∧ p = Index.token a.
Proof.
  intros a.
  destruct (page_ok_run trace _ (page_ok_mount storage env))
    as (Hs & Hi & Hr & Hw).
  fold a in Hs, Hi, Hr, Hw. split; [done|]. intros i p Hp.
  pose proof (reachable_live_transport _ Hr) as Hl.
  unfold live, in_step, dash_session in *.
  destruct (dashboard (Index.tree a)) as [d|] eqn:Hd.
  - destruct Hl as (olds & Ht & Holds & _).
    rewrite Ht in Hp. apply lookup_app_Some in Hp as [Hp|[_ Hp]].
    { rewrite Forall_forall in Holds.
      by specialize (Holds _ (list_elem_of_lookup_2 _ _ _ Hp)). }
    apply list_lookup_singleton_Some in Hp as [_ [= <-]].
    destruct (Index.isAuthenticated a).
    + destruct Hi as (j & [= _ Hj]). done.
    + by destruct Hi.
  - rewrite Forall_forall in Hl.
    by specialize (Hl _ (list_elem_of_lookup_2 _ _ _ Hp)).
Qed.

(** X13.  Logging out releases everything.  After [handleLogout] and the
    render that follows, the page is logged out with no token, the token
    is gone from [localStorage], the Dashboard and the feed are unmounted,
    every transport is released, and no transport was opened on the way. *)
Theorem logout_releases_everything (storage : gmap string string)
    (env : Samples) (trace : list (Index.Action * Samples))
    (env' : Samples) :
  let a := Index.run_actions (Index.mount storage env) trace in
  let a' := Index.handle a (Index.Logout, env') in
  Index.isAuthenticated a' = false
  ∧ Index.token a' = None
  ∧ Index.localStorage a' !! "disaster_token" = None
  ∧ dashboard (Index.tree a') = None
  ∧ feed (Index.tree a') = None
  ∧ Forall (λ p, p.2 = true) (transports (Index.tree a'))
  ∧ (transports (Index.tree a')).*1 = (transports (Index.tree a)).*1.
Proof.
  intros a a'.
  destruct (page_ok_run trace _ (page_ok_mount storage env))
    as (_ & _ & Hr & _). fold a in Hr.
  assert (dashboard (Index.tree a') = None) as Hd
    by apply dashboard_unmount.
  assert (reachable (Index.tree a')) as Hr' by by apply reachable_step.
  destruct (reachable_no_dashboard _ Hr' Hd) as [Hf Hrel].
  split_and!; try done.
  - unfold a', Index.handle, Index.render, Index.handleLogout; simpl.
    by rewrite lookup_delete_eq.
  - unfold a', Index.handle, Index.render, Index.handleLogout; simpl.
    by rewrite credentials_step, app_nil_r.
Qed.

(** X14.  What survives a reload.  [handleLogin] logs the page in with
    whatever token it is given, the empty string included.  When the page
    is loaded again on the storage it left behind, it is logged in with
    that token exactly when the token is not empty; after [handleLogout]
    it comes up logged out with nothing mounted.  Nothing that happens
    below the page in between changes this. *)
Theorem a_reload_keeps_a_non_empty_token (a : Index.App) (t : string)
    (trace : list (Index.Action * Samples)) (e1 e2 : Samples) :
  Forall below trace →
  let a1 := Index.handle a (Index.Login t, e1) in
  let a2 :=
    Index.mount (Index.localStorage (Index.run_actions a1 trace)) e2 in
  let b1 := Index.handle a (Index.Logout, e1) in
  let b2 :=
    Index.mount (Index.localStorage (Index.run_actions b1 trace)) e2 in
  (Index.isAuthenticated a1 = true ∧ Index.token a1 = Some t)
  ∧ (Index.isAuthenticated a2 = (if decide (t = "") then false else true)
     ∧ Index.token a2 = (if decide (t = "") then None else Some t))
  ∧ (Index.isAuthenticated b2 = false ∧ Index.token b2 = None
     ∧ Index.tree b2 = World_init).
Proof.
  intros Htr a1 a2 b1 b2. split; [done|].
  unfold a2, b2. rewrite !storage_below_run by done.
  unfold a1, b1, Index.handle, Index.render, Index.handleLogin,
    Index.handleLogout, Index.mount, Index.effect; simpl.
  rewrite lookup_insert_eq, lookup_delete_eq. simpl.
  by case_decide.
Qed.

Lemma a_reload_keeps_a_non_empty_token_witness :
  Index.isAuthenticated
    (Index.mount
       (Index.localStorage
          (Index.run_actions (Index.handle (Index.mount ∅ at_epoch)
                        (Index.Login "tok", at_epoch))
             [ (Index.Below ShowRealtimeTab, at_epoch);
               (Index.Below (Connect 0), at_epoch) ]))
       (at_ms 1))
  = true.
Proof.
  assert (Forall below
            [ (Index.Below ShowRealtimeTab, at_epoch);
              (Index.Below (Connect 0), at_epoch) ]) as Htr
    by (repeat constructor).
  exact (proj1 (proj1 (proj2
           (a_reload_keeps_a_non_empty_token (Index.mount ∅ at_epoch) "tok"
              _ at_epoch (at_ms 1) Htr)))).
Defined.
